(** * The live compile-preview pipeline of the React playground

    A shallow embedding of [src/app/page.tsx]: the [Home] component with its
    three state cells ([code], [output], [isCompiling]), the compile
    procedure [runCode], the debouncing effect [useEffect(..., [code])], the
    manual "Compile" button and the sandboxed preview [iframe].

    Texts are [string]s; the two template literals of [runCode] are written
    out line by line with their exact indentation.  The transformation
    engine [transform] of [@babel/standalone] is external: it is a section
    variable, a function from the source text and the options to either a
    result record or a thrown value. *)

From Stdlib Require Import String Ascii List Bool ZArith Lia.
Import ListNotations.

Local Open Scope Z_scope.
Local Open Scope string_scope.

(** ** Texts and the substring relation *)

Module Text.

(** The double quote and the line feed, which a literal cannot hold
    directly. *)
Definition dq : string := String "034"%char EmptyString.
Definition nl : string := String "010"%char EmptyString.

(** An attribute value between double quotes. *)
Definition quoted (s : string) : string := dq ++ s ++ dq.

(** The lines of a template literal, joined by line feeds. *)
Definition lines (ls : list string) : string := String.concat nl ls.

(** [Substring p s]: the text [p] occurs in [s]. *)
Definition Substring (p s : string) : Prop :=
  exists a b, s = a ++ p ++ b.

(** [String.prototype.includes], the decision procedure for [Substring]. *)
Fixpoint includes (p s : string) : bool :=
  prefix p s ||
  match s with
  | EmptyString => false
  | String _ s' => includes p s'
  end.

(** [compat p s]: one of [p] and [s] is a prefix of the other, that is an
    occurrence of [p] may start where [s] starts once [s] is extended. *)
Fixpoint compat (p s : string) : bool :=
  match p, s with
  | EmptyString, _ => true
  | _, EmptyString => true
  | String a p', String b s' => Ascii.eqb a b && compat p' s'
  end.

(** No occurrence of [p] starts inside [x], whatever follows [x]. *)
Fixpoint no_start (p x : string) : bool :=
  match x with
  | EmptyString => true
  | String _ x' => negb (compat p x) && no_start p x'
  end.

(** No occurrence of [p] that starts before [y] ends inside [y]: no
    non-empty suffix of [p] is a prefix of [y]. *)
Fixpoint no_end (p y : string) : bool :=
  match p with
  | EmptyString => true
  | String _ p' => negb (prefix p y) && no_end p' y
  end.

(** The tokens of a space-separated attribute value. *)
Fixpoint tokens_aux (cur : string) (s : string) : list string :=
  match s with
  | EmptyString =>
      match cur with EmptyString => [] | _ => [cur] end
  | String c s' =>
      if Ascii.eqb c " "%char
      then match cur with
           | EmptyString => tokens_aux EmptyString s'
           | _ => cur :: tokens_aux EmptyString s'
           end
      else tokens_aux (cur ++ String c EmptyString) s'
  end.
Definition tokens (s : string) : list string := tokens_aux EmptyString s.

End Text.
Import Text.

(** ** Values of the host language *)

(** What a [throw] can carry.  [JsError] stands for every instance of
    [Error] ([SyntaxError], [TypeError], ...); the other constructors are
    the values for which [error instanceof Error] is false. *)
Inductive JsValue : Type :=
| JsError (name message : string)
| JsString (s : string)
| JsNumber (n : Z)
| JsUndefined
| JsNull.

Definition instanceof_Error (v : JsValue) : bool :=
  match v with
  | JsError _ _ => true
  | _ => false
  end.

(** [error.message], read only after the [instanceof] test succeeded. *)
Definition message (v : JsValue) : string :=
  match v with
  | JsError _ m => m
  | _ => EmptyString
  end.

(** How the evaluation of a statement or call ends. *)
Inductive Completion (A : Type) : Type :=
| Normal (a : A)
| Throw (v : JsValue).
Arguments Normal {A} a.
Arguments Throw {A} v.

(** The boundary of [@babel/standalone]: [transform(code, options)] returns
    a result whose [code] is a string (no option of [runCode] turns code
    generation off), or throws. *)
Module Babel.
Record TransformOptions : Type := { presets : list string }.
Record FileResult : Type := { code : string }.
Definition engine : Type :=
  string -> TransformOptions -> Completion FileResult.
End Babel.

(** ** The constants of the component *)

Definition defaultCode : string :=
  lines [
    "function App() {";
    "  const [count, setCount] = useState(0);";
    "";
    "  return (";
    "    <div style={{ padding: '20px' }}>";
    "      <h1>Hello from React Playground!</h1>";
    "      <button onClick={() => setCount(count + 1)}>";
    "        Count: {count}";
    "      </button>";
    "    </div>";
    "  );";
    "}"
  ].

(** The three loader elements of the success template. *)
Definition react_script : string :=
  "<script crossorigin src="
  ++ quoted "https://unpkg.com/react@18/umd/react.development.js"
  ++ "></script>".
Definition react_dom_script : string :=
  "<script crossorigin src="
  ++ quoted "https://unpkg.com/react-dom@18/umd/react-dom.development.js"
  ++ "></script>".
Definition babel_script : string :=
  "<script src="
  ++ quoted "https://unpkg.com/@babel/standalone/babel.min.js"
  ++ "></script>".
Definition root_container : string :=
  "<div id=" ++ quoted "root" ++ "></div>".
Definition babel_script_open : string :=
  "<script type=" ++ quoted "text/babel" ++ ">".
Definition create_root_line : string :=
  "const root = ReactDOM.createRoot(document.getElementById('root'));".
Definition render_line : string := "root.render(<App />);".

(** The template literal bound to [iframeContent] in [runCode]. *)
Definition iframeContent (transpiledCode : string) : string :=
  lines [
    "";
    "        <!DOCTYPE html>";
    "        <html>";
    "          <head>";
    "            " ++ react_script;
    "            " ++ react_dom_script;
    "            " ++ babel_script;
    "            <style>";
    "              body { margin: 0; padding: 20px; font-family: system-ui, -apple-system, sans-serif; }";
    "            </style>";
    "          </head>";
    "          <body>";
    "            " ++ root_container;
    "            " ++ babel_script_open;
    "              const { useState } = React;";
    "              " ++ transpiledCode;
    "              " ++ create_root_line;
    "              " ++ render_line;
    "            </script>";
    "          </body>";
    "        </html>";
    "      "
  ].

Definition error_style_open : string :=
  "<div style=" ++ quoted "color: red; padding: 20px;" ++ ">".

(** The template literal of the [catch] branch of [runCode]. *)
Definition errorDocument (errorMessage : string) : string :=
  lines [
    "";
    "        <!DOCTYPE html>";
    "        <html>";
    "          <body>";
    "            " ++ error_style_open;
    "              <h3>Error:</h3>";
    "              <pre>" ++ errorMessage ++ "</pre>";
    "            </div>";
    "          </body>";
    "        </html>";
    "      "
  ].

Definition unknown_error : string := "An unknown error occurred".

(** The message the [catch] branch shows:
    [error instanceof Error ? error.message : 'An unknown error occurred']. *)
Definition errorMessage_of (error : JsValue) : string :=
  if instanceof_Error error then message error else unknown_error.

(** The options object passed to [transform]. *)
Definition babelOptions : Babel.TransformOptions :=
  {| Babel.presets := ["react"; "env"] |}.

(** ** The state of the page *)

(** What the component does to its surroundings, in order.  The trace is
    ghost state: the code never reads it. *)
Inductive Effect : Type :=
| CallTransform (sourceText : string) (options : Babel.TransformOptions)
| SetCode (value : string)
| SetOutput (document : string)
| SetIsCompiling (flag : bool)
| ConsoleError (label : string) (error : JsValue)
| SetTimeout (handle : nat) (delay : Z)
| ClearTimeout (handle : nat).

(** A pending [setTimeout(runCode, delay)].  The callback is the [runCode]
    closure of the render that armed the timer; all it captures from that
    render besides the (stable) state setters is [code]. *)
Record Timer : Type := mkTimer {
  handle : nat;
  deadline : Z;
  captured_code : string
}.

Record World : Type := mkWorld {
  code : string;                 (* useState(defaultCode) *)
  output : string;               (* useState('') *)
  isCompiling : bool;            (* useState(false) *)
  now : Z;                       (* the clock of the event loop, in ms *)
  timers : list Timer;           (* the timer table, oldest first *)
  next_handle : nat;             (* the next value setTimeout returns *)
  debounceTimer : option nat;    (* captured by the pending effect clean-up *)
  trace : list Effect
}.

Definition with_code (v : string) (w : World) : World :=
  mkWorld v (output w) (isCompiling w) (now w) (timers w) (next_handle w)
          (debounceTimer w) (trace w).
Definition with_output (v : string) (w : World) : World :=
  mkWorld (code w) v (isCompiling w) (now w) (timers w) (next_handle w)
          (debounceTimer w) (trace w).
Definition with_isCompiling (v : bool) (w : World) : World :=
  mkWorld (code w) (output w) v (now w) (timers w) (next_handle w)
          (debounceTimer w) (trace w).
Definition with_now (v : Z) (w : World) : World :=
  mkWorld (code w) (output w) (isCompiling w) v (timers w) (next_handle w)
          (debounceTimer w) (trace w).
Definition with_timers (v : list Timer) (w : World) : World :=
  mkWorld (code w) (output w) (isCompiling w) (now w) v (next_handle w)
          (debounceTimer w) (trace w).
Definition with_next_handle (v : nat) (w : World) : World :=
  mkWorld (code w) (output w) (isCompiling w) (now w) (timers w) v
          (debounceTimer w) (trace w).
Definition with_debounceTimer (v : option nat) (w : World) : World :=
  mkWorld (code w) (output w) (isCompiling w) (now w) (timers w)
          (next_handle w) v (trace w).
Definition emit (e : Effect) (w : World) : World :=
  mkWorld (code w) (output w) (isCompiling w) (now w) (timers w)
          (next_handle w) (debounceTimer w) (trace w ++ [e])%list.

(** ** Statements: state passing with exceptions *)

Definition M (A : Type) : Type := World -> Completion A * World.

Definition ret {A} (a : A) : M A := fun w => (Normal a, w).

Definition bind {A B} (m : M A) (k : A -> M B) : M B :=
  fun w =>
    match m w with
    | (Normal a, w') => k a w'
    | (Throw v, w') => (Throw v, w')
    end.

Declare Scope stmt_scope.
Delimit Scope stmt_scope with stmt.
Notation "x <- m ;; k" := (bind m (fun x => k))
  (at level 61, m at next level, right associativity) : stmt_scope.
Notation "m ;; k" := (bind m (fun _ => k))
  (at level 61, right associativity) : stmt_scope.

(** [try { body } catch (error) { handler error }] *)
Definition try_catch {A} (body : M A) (handler : JsValue -> M A) : M A :=
  fun w =>
    match body w with
    | (Normal a, w') => (Normal a, w')
    | (Throw v, w') => handler v w'
    end.

(** [try { body } finally { cleanup }]: the clean-up runs however the body
    ends; the body's completion stands unless the clean-up itself throws. *)
Definition try_finally {A} (body : M A) (cleanup : M unit) : M A :=
  fun w =>
    match body w with
    | (r, w1) =>
        match cleanup w1 with
        | (Normal _, w2) => (r, w2)
        | (Throw v, w2) => (Throw v, w2)
        end
    end.

(** The state setters returned by [useState].  A handler does not read the
    cells it writes (it sees the values its render captured), so applying
    the updates in the order they are queued gives the state of the next
    render. *)
Definition setCode (v : string) : M unit :=
  fun w => (Normal tt, emit (SetCode v) (with_code v w)).
Definition setOutput (v : string) : M unit :=
  fun w => (Normal tt, emit (SetOutput v) (with_output v w)).
Definition setIsCompiling (v : bool) : M unit :=
  fun w => (Normal tt, emit (SetIsCompiling v) (with_isCompiling v w)).
Definition console_error (label : string) (error : JsValue) : M unit :=
  fun w => (Normal tt, emit (ConsoleError label error) w).

(** The tokens of the sandbox attribute that lift the isolation of the
    preview. *)
Definition allow_scripts : string := "allow-scripts".
Definition allow_same_origin : string := "allow-same-origin".

Section Playground.

(** [transform] of [@babel/standalone]. *)
Variable transform : Babel.engine.

Definition call_transform (sourceText : string)
           (options : Babel.TransformOptions) : M Babel.FileResult :=
  fun w => (transform sourceText options,
            emit (CallTransform sourceText options) w).

(** [runCode], as closed over the [code] of the render that created it. *)
Definition runCode (code : string) : M unit :=
  (try_finally
     (try_catch
        (setIsCompiling true ;;
         result <- call_transform code babelOptions ;;
         let transpiledCode := Babel.code result in
         setOutput (iframeContent transpiledCode))
        (fun error =>
           console_error "Error:" error ;;
           let errorMessage := errorMessage_of error in
           setOutput (errorDocument errorMessage)))
     (setIsCompiling false))%stmt.

(** Running a handler to its end: the world it leaves. *)
Definition exec {A} (m : M A) (w : World) : World := snd (m w).

(** *** Timers *)

(** [setTimeout(runCode, delay)] from a render whose [code] is the
    current one. *)
Definition setTimeout_runCode (delay : Z) (w : World) : nat * World :=
  let h := next_handle w in
  (h, emit (SetTimeout h delay)
        (with_next_handle (S h)
           (with_timers
              (timers w ++ [mkTimer h (now w + delay) (code w)])%list w))).

(** [clearTimeout(h)]: nothing happens when [h] is no longer pending. *)
Definition clearTimeout (h : nat) (w : World) : World :=
  emit (ClearTimeout h)
    (with_timers
       (filter (fun t => negb (Nat.eqb (handle t) h)) (timers w)) w).

(** The effect [useEffect(() => { ... }, [code])]: the clean-up of the
    previous run, then the body. *)
Definition effect_cleanup (w : World) : World :=
  match debounceTimer w with
  | Some h => with_debounceTimer None (clearTimeout h w)
  | None => w
  end.
Definition effect_body (w : World) : World :=
  let '(h, w') := setTimeout_runCode 1000 w in
  with_debounceTimer (Some h) w'.

(** The first render: the initial state, then the effect. *)
Definition initial : World :=
  mkWorld defaultCode EmptyString false 0 [] 1%nat None [].
Definition mount : World := effect_body initial.

(** *** The handlers *)

(** [value || ''] for [value : string | undefined]. *)
Definition or_empty (value : option string) : string :=
  match value with
  | Some (String c s) => String c s
  | Some EmptyString => EmptyString
  | None => EmptyString
  end.

(** The editor's [onChange]: [setCode(value || '')], then the render it
    causes.  A state update to an equal value leaves the dependency
    [code] unchanged, so the effect does not run again; otherwise its
    clean-up and its body run with the new [code]. *)
Definition onChange (value : option string) (w : World) : World :=
  let v := or_empty value in
  let w' := exec (setCode v) w in
  if String.eqb v (code w) then w'
  else effect_body (effect_cleanup w').

(** The rendered "Compile" button and preview frame. *)
Record Button : Type := {
  disabled : bool;
  label : string
}.
Record Iframe : Type := {
  srcDoc : string;
  title : string;
  sandbox : string
}.
Record View : Type := {
  compile_button : Button;
  preview : Iframe
}.
Definition render (w : World) : View :=
  {| compile_button :=
       {| disabled := isCompiling w;
          label := if isCompiling w then "Compiling..." else "Compile" |};
     preview :=
       {| srcDoc := output w;
          title := "output";
          sandbox := "allow-scripts" |} |}.

(** A click on the button: a disabled button dispatches nothing,
    otherwise [onClick={runCode}] of the current render runs. *)
Definition click (w : World) : World :=
  if disabled (compile_button (render w)) then w
  else exec (runCode (code w)) w.

(** *** The event loop *)

(** The pending timer that fires next among those due at [t]: the
    earliest deadline, the oldest first among equals. *)
Fixpoint next_due (t : Z) (ts : list Timer) : option Timer :=
  match ts with
  | [] => None
  | x :: ts' =>
      match next_due t ts' with
      | Some y =>
          if ((deadline x <=? t) && (deadline x <=? deadline y))%Z
          then Some x else Some y
      | None => if (deadline x <=? t)%Z then Some x else None
      end
  end.

(** A timer fires: it leaves the table, the clock is at its deadline at
    least, and its callback runs. *)
Definition fire (x : Timer) (w : World) : World :=
  let w1 :=
    with_timers
      (filter (fun t => negb (Nat.eqb (handle t) (handle x))) (timers w))
      (with_now (Z.max (now w) (deadline x)) w) in
  exec (runCode (captured_code x)) w1.

Fixpoint fire_due (fuel : nat) (t : Z) (w : World) : World :=
  match fuel with
  | O => w
  | S fuel' =>
      match next_due t (timers w) with
      | Some x => fire_due fuel' t (fire x w)
      | None => w
      end
  end.

(** [ms] milliseconds pass with no user input: the timers due by then
    fire in order.  A callback arms no timer, so one round per pending
    timer is enough. *)
Definition elapse (ms : Z) (w : World) : World :=
  let t := now w + Z.max 0 ms in
  with_now t (fire_due (length (timers w)) t w).

Inductive Event : Type :=
| Edit (value : option string)
| Click
| Elapse (ms : Z).

Definition step (e : Event) (w : World) : World :=
  match e with
  | Edit value => onChange value w
  | Click => click w
  | Elapse ms => elapse ms w
  end.

Definition run (es : list Event) (w : World) : World :=
  fold_left (fun w e => step e w) es w.

Inductive reachable : World -> Prop :=
| reachable_mount : reachable mount
| reachable_step w e : reachable w -> reachable (step e w).

(** *** Observations on the trace *)

(** The source texts of the compile procedures that ran, in order. *)
Fixpoint compiled (tr : list Effect) : list string :=
  match tr with
  | [] => []
  | CallTransform s _ :: tr' => s :: compiled tr'
  | _ :: tr' => compiled tr'
  end.

(** The calls of the engine, with their arguments. *)
Fixpoint transform_calls (tr : list Effect)
  : list (string * Babel.TransformOptions) :=
  match tr with
  | [] => []
  | CallTransform s o :: tr' => (s, o) :: transform_calls tr'
  | _ :: tr' => transform_calls tr'
  end.

(** The documents handed to the preview, in order. *)
Fixpoint published (tr : list Effect) : list string :=
  match tr with
  | [] => []
  | SetOutput d :: tr' => d :: published tr'
  | _ :: tr' => published tr'
  end.

End Playground.

(** ** The parts of the two documents *)

(** What precedes and what follows the interpolated code in
    [iframeContent]. *)
Definition success_head : string :=
  lines [
    "";
    "        <!DOCTYPE html>";
    "        <html>";
    "          <head>";
    "            " ++ react_script;
    "            " ++ react_dom_script;
    "            " ++ babel_script;
    "            <style>";
    "              body { margin: 0; padding: 20px; font-family: system-ui, -apple-system, sans-serif; }";
    "            </style>";
    "          </head>";
    "          <body>";
    "            " ++ root_container;
    "            " ++ babel_script_open;
    "              const { useState } = React;";
    "              "
  ].
Definition success_tail : string :=
  lines [
    "";
    "              " ++ create_root_line;
    "              " ++ render_line;
    "            </script>";
    "          </body>";
    "        </html>";
    "      "
  ].

(** What precedes and what follows the interpolated message in
    [errorDocument]. *)
Definition error_head : string :=
  lines [
    "";
    "        <!DOCTYPE html>";
    "        <html>";
    "          <body>";
    "            " ++ error_style_open;
    "              <h3>Error:</h3>";
    "              <pre>"
  ].
Definition error_tail : string :=
  lines [
    "</pre>";
    "            </div>";
    "          </body>";
    "        </html>";
    "      "
  ].

(** The runtime bootstrap of the success document: the three loaders, the
    opening of the re-lowered script, and the two mounting statements. *)
Definition bootstrap_scripts : list string :=
  [react_script; react_dom_script; babel_script; babel_script_open;
   create_root_line; render_line].


(** ** Bursts of edits *)

(** Every update of the list stores a text other than the one stored
    before it; [c] is the text stored before the first. *)
Fixpoint all_change (c : string) (values : list (option string)) : Prop :=
  match values with
  | [] => True
  | v :: values' =>
      or_empty v <> c /\ all_change (or_empty v) values'
  end.

(** The text stored after the updates. *)
Fixpoint last_text (c : string) (values : list (option string)) : string :=
  match values with
  | [] => c
  | v :: values' =>
      last_text (or_empty v) values'
  end.

(** An update, then for each [(d, v)] a pause of [d] ms and the update
    [v], then a pause of [quiet] ms. *)
Definition burst (v0 : option string) (rest : list (Z * option string))
           (quiet : Z) : list Event :=
  (Edit v0 :: flat_map (fun dv => [Elapse (fst dv); Edit (snd dv)]) rest
   ++ [Elapse quiet])%list.

(** ** A stand-in engine for the examples *)

(** It accepts a text whose braces are balanced and returns it unchanged;
    it rejects any other text with a [SyntaxError] whose message quotes the
    source line, the way the code frame of a Babel parse error does. *)
Fixpoint balanced_from (depth : nat) (s : string) : bool :=
  match s with
  | EmptyString => Nat.eqb depth 0
  | String c s' =>
      if Ascii.eqb c "{"%char then balanced_from (S depth) s'
      else if Ascii.eqb c "}"%char then
        match depth with
        | O => false
        | S d => balanced_from d s'
        end
      else balanced_from depth s'
  end.

Definition sample_engine : Babel.engine :=
  fun sourceText _ =>
    if balanced_from 0 sourceText
    then Normal {| Babel.code := sourceText |}
    else Throw (JsError "SyntaxError"
                  ("unknown: Unexpected token (1:0)" ++ nl ++ nl
                   ++ "> 1 | " ++ sourceText)).

(** An engine that throws something that is no [Error]. *)
Definition rude_engine : Babel.engine :=
  fun _ _ => Throw (JsString "boom").

(** ** The outcome of a compile procedure *)

(** What a compile procedure adds to the trace when the engine accepts
    the text, and when it throws [v]. *)
Definition accepted_trace (sourceText document : string) : list Effect :=
  [SetIsCompiling true; CallTransform sourceText babelOptions;
   SetOutput document; SetIsCompiling false].
Definition rejected_trace (sourceText : string) (v : JsValue)
           (document : string) : list Effect :=
  [SetIsCompiling true; CallTransform sourceText babelOptions;
   ConsoleError "Error:" v; SetOutput document; SetIsCompiling false].

(** The world after a compile procedure that published [document]. *)
Definition after_compile (document : string) (new : list Effect)
           (w : World) : World :=
  mkWorld (code w) document false (now w) (timers w) (next_handle w)
          (debounceTimer w) (trace w ++ new)%list.

(** ** The invariant of the page *)

(** Between two events the status is Idle, and every pending timer is the
    one the effect clean-up holds and runs the compile procedure on the
    stored text. *)
Definition owned (w : World) (t : Timer) : Prop :=
  debounceTimer w = Some (handle t) /\ captured_code t = code w.
Definition settled (w : World) : Prop :=
  isCompiling w = false /\ Forall (owned w) (timers w).

(** The engine calls among [new] were all made on [sourceText] with the
    options of [runCode]. *)
Definition calls_on (sourceText : string) (new : list Effect) : Prop :=
  Forall (fun c => c = (sourceText, babelOptions)) (transform_calls new).

(** ** Example inputs *)

(** A text the stand-in engine rejects: a loader element followed by an
    unmatched brace. *)
Definition quoting_source : string := babel_script ++ " {".

(** The page one second after it was mounted: the starter code has been
    compiled and no timer is pending. *)
Definition idle_page : World := run sample_engine [Elapse 1000] mount.

(** ** How the preview reads the documents *)






(** The character data an element begins with, given what follows its
    opening tag: all that comes before the next [<].  [None] when [&]
    comes first: the character reference that it may start is not
    followed here. *)
Fixpoint character_data (s : string) : option string :=
  match s with
  | EmptyString => Some EmptyString
  | String c s' =>
      if Ascii.eqb c "<"%char then Some EmptyString
      else if Ascii.eqb c "&"%char then None
      else option_map (String c) (character_data s')
  end.


Definition markup_source : string := "</pre></div>{".

(** ** The preview between two compile procedures *)

(** The document a compile procedure publishes for a source text. *)
Definition document_of (transform : Babel.engine) (sourceText : string)
  : string :=
  match transform sourceText babelOptions with
  | Normal result => iframeContent (Babel.code result)
  | Throw error => errorDocument (errorMessage_of error)
  end.

(** A pending timer is due within the quiet period and not overdue. *)
Definition in_time (w : World) (t : Timer) : Prop :=
  now w < deadline t <= now w + 1000.

(** At most one timer is pending, it is in time, and when none is pending
    the preview shows the document of the stored text. *)
Definition debounced (transform : Babel.engine) (w : World) : Prop :=
  settled w /\
  (length (timers w) <= 1)%nat /\
  Forall (in_time w) (timers w) /\
  (timers w = [] -> output w = document_of transform (code w)).

(** * The language-model service

    The second module of the file: [AIService], a wrapper of the
    [@anthropic-ai/sdk] client with retries, streaming and token counting.
    The client is external: [messages.create] is an oracle that answers
    the [n]-th call of a run with a response or a thrown value.  Awaited
    calls are run in sequence; what the service sends and the delays it
    asks [setTimeout] for are logged. *)

From Stdlib Require QArith Qround.

Module AI.

(** ** Thrown values *)

(** A property that may be missing from an object: ['key' in object] is
    false for [Absent]; a present property may still hold [undefined]. *)
Inductive Field (A : Type) : Type :=
| Absent
| Present (value : option A).
Arguments Absent {A}.
Arguments Present {A} value.

(** An instance of [Error], with the two properties the service looks
    for. *)
Record ErrorObject : Type := {
  error_name : string;
  error_message : string;
  error_status : Field Z;
  error_code : Field string
}.

Inductive Thrown : Type :=
| ThrownError (error : ErrorObject)
| ThrownValue (shown : string).

(** How an awaited promise or an evaluation ends. *)
Inductive Settled (A : Type) : Type :=
| Fulfilled (a : A)
| Rejected (error : Thrown).
Arguments Fulfilled {A} a.
Arguments Rejected {A} error.

(** [class AIError extends Error]; its [name] is ['AIError']. *)
Record AIError : Type := {
  message : string;
  statusCode : option Z;
  code : option string
}.

(** How a method of the service ends: every [throw] of the class throws
    an [AIError]. *)
Inductive Result (A : Type) : Type :=
| Returned (a : A)
| Raised (error : AIError).
Arguments Returned {A} a.
Arguments Raised {A} error.

(** The [TypeError] of reading a property of [undefined]; the wording is
    the engine's. *)
Definition TypeError_reading (property : string) : Thrown :=
  ThrownError
    {| error_name := "TypeError";
       error_message :=
         "Cannot read properties of undefined (reading '" ++ property ++ "')";
       error_status := Absent;
       error_code := Absent |}.

(** ** Messages, requests and responses *)

Inductive Role : Type := user | assistant | system.

(** [ChatMessage] and the [MessageParam] built from it: a role, a content
    and an optional name. *)
Module Msg.
Record t : Type := { role : Role; content : string; name : option string }.
End Msg.
Definition ChatMessage : Type := Msg.t.
Definition MessageParam : Type := Msg.t.

(** [FunctionDefinition]; the values of [properties] are never inspected
    and are kept as texts. *)
Module Fn.
Record t : Type := {
  name : string;
  description : string;
  properties : list (string * string);
  required : option (list string)
}.
End Fn.
Definition FunctionDefinition : Type := Fn.t.

(** A number of the host language: not-a-number, a finite number (read as
    the rational it is) or an infinity. *)
Inductive Number : Type :=
| NaN
| Finite (q : QArith_base.Q)
| PlusInfinity
| MinusInfinity.

Module Config.
Record t : Type := {
  apiKey : string;
  model : option string;
  maxRetries : option Number;
  temperature : option Number
}.
End Config.
Definition AIConfig : Type := Config.t.

(** The private fields of [AIService] as the constructor sets them, for
    any numbers. *)
Module Any.
Record t : Type := {
  apiKey : string;
  model : string;
  maxRetries : Number;
  temperature : Number
}.
End Any.

(** The private fields of [AIService] when the retry count is an integer
    and the temperature a finite number. *)
Record AIService : Type := {
  apiKey : string;
  model : string;
  maxRetries : Z;
  temperature : QArith_base.Q
}.

(** The argument of [client.messages.create]. *)
Module Req.
Record t : Type := {
  model : string;
  messages : list MessageParam;
  temperature : option QArith_base.Q;
  tools : option (list FunctionDefinition);
  stream : bool;
  max_tokens : option Z
}.
End Req.

(** What [client.messages.create] resolves to. *)
Module Resp.
Record Block : Type := { text : string }.
Record Usage : Type := {
  input_tokens : option Z;
  output_tokens : option Z
}.
Record ToolCall : Type := {
  function_name : string;
  function_arguments : string
}.
Record t : Type := {
  content : list Block;
  usage : option Usage;
  tool_calls : option (list ToolCall)
}.
End Resp.

(** A chunk of a streamed response, and a stream: the chunks it yields and
    the value it throws after them, if it fails. *)
Module Chunk.
Record Block : Type := { text : option string }.
Record t : Type := { content : option (list Block) }.
End Chunk.
Record Stream : Type := {
  chunks : list Chunk.t;
  failure : option Thrown
}.

(** [AIServiceResponse]. *)
Module Out.
Record Usage : Type := {
  promptTokens : Z;
  completionTokens : Z;
  totalTokens : Number
}.
Record FunctionCall : Type := { name : string; arguments : string }.
Record t : Type := {
  content : string;
  usage : option Usage;
  functionCall : option FunctionCall
}.
End Out.
Definition AIServiceResponse : Type := Out.t.

(** What a run of the service did: the requests sent, the delays asked of
    [setTimeout] (in ms) and the tokens handed to [onToken], in order. *)
Record Net : Type := {
  requests : list Req.t;
  delays : list Z;
  tokens : list string
}.
Definition idle_net : Net :=
  {| requests := []; delays := []; tokens := [] |}.
Definition send (request : Req.t) (net : Net) : Net :=
  {| requests := (requests net ++ [request])%list;
     delays := delays net;
     tokens := tokens net |}.
Definition sleep (ms : Z) (net : Net) : Net :=
  {| requests := requests net;
     delays := (delays net ++ [ms])%list;
     tokens := tokens net |}.
Definition hand_over (token : string) (net : Net) : Net :=
  {| requests := requests net;
     delays := delays net;
     tokens := (tokens net ++ [token])%list |}.

(** ** Falsy values *)

(** [s || d], [n || d] and [q || d] for a value that may be undefined. *)
Definition string_or (value : option string) (d : string) : string :=
  match value with
  | Some EmptyString => d
  | Some s => s
  | None => d
  end.
Definition int_or (value : option Z) (d : Z) : Z :=
  match value with
  | Some n => if (n =? 0)%Z then d else n
  | None => d
  end.
(** The numbers that count as false: not-a-number and zero. *)
Definition falsy (n : Number) : bool :=
  match n with
  | NaN => true
  | Finite q => QArith_base.Qeq_bool q (QArith_base.Qmake 0 1)
  | PlusInfinity => false
  | MinusInfinity => false
  end.
Definition number_or (value : option Number) (d : Number) : Number :=
  match value with
  | Some n => if falsy n then d else n
  | None => d
  end.

(** [attempts < n] and [attempts === n] for an integer [attempts]. *)
Definition below (attempts : Z) (n : Number) : bool :=
  match n with
  | NaN => false
  | Finite q =>
      negb (QArith_base.Qle_bool q (QArith_base.inject_Z attempts))
  | PlusInfinity => true
  | MinusInfinity => false
  end.
Definition same (attempts : Z) (n : Number) : bool :=
  match n with
  | Finite q => QArith_base.Qeq_bool (QArith_base.inject_Z attempts) q
  | _ => false
  end.

(** The double nearest to an integer, ties going to the even mantissa:
    what [+] makes of the exact sum of two integers.  Every integer up to
    [2 ^ 53] in size is a double; a sum that rounds to [2 ^ 1024] or
    beyond is an infinity. *)
Definition to_double (n : Z) : Number :=
  let a := Z.abs n in
  if (a <=? 2 ^ 53)%Z then Finite (QArith_base.inject_Z n)
  else
    let ulp := 2 ^ (Z.log2 a - 52) in
    let q := a / ulp in
    let r := a mod ulp in
    let q' :=
      if ((ulp <? 2 * r) || ((ulp =? 2 * r) && Z.odd q))%Z then q + 1
      else q in
    if (2 ^ 1024 <=? q' * ulp)%Z then
      if (0 <? n)%Z then PlusInfinity else MinusInfinity
    else Finite (QArith_base.inject_Z (Z.sgn n * (q' * ulp))).

(** The truthy part of an optional text: [None] for undefined and for the
    empty text. *)
Definition truthy (value : option string) : option string :=
  match value with
  | Some EmptyString => None
  | Some s => Some s
  | None => None
  end.

(** ** The methods *)

(** [new AIError(error.message, status in error ? error.status : 500,
    code in error ? error.code : undefined)] for an [Error], and
    [new AIError(fallback, 500)] for any other thrown value. *)
Definition rethrow (fallback : string) (error : Thrown) : AIError :=
  match error with
  | ThrownError e =>
      {| message := error_message e;
         statusCode :=
           match error_status e with
           | Present v => v
           | Absent => Some 500
           end;
         code :=
           match error_code e with
           | Present v => v
           | Absent => None
           end |}
  | ThrownValue _ =>
      {| message := fallback; statusCode := Some 500; code := None |}
  end.

(** [messages.map(msg => ({ role, content, ...(msg.name && { name }) }))] *)
Definition format_message (msg : ChatMessage) : MessageParam :=
  {| Msg.role := Msg.role msg;
     Msg.content := Msg.content msg;
     Msg.name := truthy (Msg.name msg) |}.

(** [if (systemPrompt) formattedMessages.unshift({ role: 'system', ... })] *)
Definition with_system (systemPrompt : option string)
           (formattedMessages : list MessageParam) : list MessageParam :=
  match truthy systemPrompt with
  | Some prompt =>
      {| Msg.role := system; Msg.content := prompt; Msg.name := None |}
        :: formattedMessages
  | None => formattedMessages
  end.

(** The object literal returned by [createChatCompletion]; reading
    [content[0].text] or [tool_calls[0].function] of a missing element
    throws.  Token counts are integers that are doubles, and their sum is
    rounded as [+] rounds it. *)
Definition or_zero (value : option Z) : Z := int_or value 0.
Definition tokens_in (u : option Resp.Usage) : Z :=
  or_zero (match u with Some u => Resp.input_tokens u | None => None end).
Definition tokens_out (u : option Resp.Usage) : Z :=
  or_zero (match u with Some u => Resp.output_tokens u | None => None end).
Definition to_service_response (response : Resp.t)
  : Settled AIServiceResponse :=
  match Resp.content response with
  | [] => Rejected (TypeError_reading "text")
  | block :: _ =>
      let usage :=
        {| Out.promptTokens := tokens_in (Resp.usage response);
           Out.completionTokens := tokens_out (Resp.usage response);
           Out.totalTokens :=
             to_double (tokens_in (Resp.usage response)
                        + tokens_out (Resp.usage response)) |} in
      match Resp.tool_calls response with
      | None =>
          Fulfilled {| Out.content := Resp.text block;
                       Out.usage := Some usage;
                       Out.functionCall := None |}
      | Some [] => Rejected (TypeError_reading "function")
      | Some (call :: _) =>
          Fulfilled
            {| Out.content := Resp.text block;
               Out.usage := Some usage;
               Out.functionCall :=
                 Some {| Out.name := Resp.function_name call;
                         Out.arguments := Resp.function_arguments call |} |}
      end
  end.

(** [chunk.content[0]?.text || '']: reading [content[0]] throws when the
    chunk has no [content]; a missing first block or text gives the empty
    token. *)
Definition read_token (chunk : Chunk.t) : Settled string :=
  match Chunk.content chunk with
  | None => Rejected (TypeError_reading "0")
  | Some [] => Fulfilled EmptyString
  | Some (block :: _) => Fulfilled (string_or (Chunk.text block) EmptyString)
  end.

(** The token of a chunk; the empty text when reading it throws. *)
Definition token_of (chunk : Chunk.t) : string :=
  match read_token chunk with
  | Fulfilled token => token
  | Rejected _ => EmptyString
  end.

Definition max_retries_exceeded : AIError :=
  {| message := "Max retries exceeded"; statusCode := Some 500;
     code := None |}.

Section Service.

(** [new Anthropic({ apiKey })], and [client.messages.create] without and
    with [stream: true], as answered at the [n]-th call. *)
Variable new_Anthropic : string -> Settled unit.
Variable create : nat -> Req.t -> Settled Resp.t.
Variable create_stream : nat -> Req.t -> Settled Stream.

(** The constructor with [initializeClient]. *)
Definition new_AIService (config : AIConfig) : Result Any.t :=
  let this :=
    {| Any.apiKey := Config.apiKey config;
       Any.model := string_or (Config.model config) "claude-3-opus-20240229";
       Any.maxRetries :=
         number_or (Config.maxRetries config)
                   (Finite (QArith_base.Qmake 3 1));
       Any.temperature :=
         number_or (Config.temperature config)
                   (Finite (QArith_base.Qmake 7 10)) |} in
  match new_Anthropic (Any.apiKey this) with
  | Fulfilled _ => Returned this
  | Rejected (ThrownError e) =>
      Raised {| message := error_message e; statusCode := Some 500;
                code := None |}
  | Rejected (ThrownValue _) =>
      Raised {| message := "Failed to initialize Anthropic client";
                statusCode := Some 500; code := None |}
  end.

(** The request of [createChatCompletion]. *)
Definition completion_request (this : AIService)
           (messages : list MessageParam)
           (functions : option (list FunctionDefinition)) : Req.t :=
  {| Req.model := model this;
     Req.messages := messages;
     Req.temperature := Some (temperature this);
     Req.tools := functions;
     Req.stream := false;
     Req.max_tokens := None |}.

(** The body of the [try] of one attempt: the call that is the [n]-th of
    the run, and the response object built from its answer. *)
Definition try_create (n : nat) (request : Req.t)
  : Settled AIServiceResponse :=
  match create n request with
  | Fulfilled response => to_service_response response
  | Rejected error => Rejected error
  end.

(** The loop [while (attempts < this.maxRetries)] of
    [createChatCompletion] for a retry count that is an integer, from the
    value [attempts]; [None] when the fuel runs out before the loop
    ends. *)
Fixpoint attempt_loop (fuel : nat) (this : AIService) (request : Req.t)
         (attempts : Z) (net : Net)
  : option (Result AIServiceResponse * Net) :=
  if (attempts <? maxRetries this)%Z then
    match fuel with
    | O => None
    | S fuel' =>
        let net1 := send request net in
        match try_create (length (requests net)) request with
        | Fulfilled response => Some (Returned response, net1)
        | Rejected error =>
            let attempts := attempts + 1 in
            if (attempts =? maxRetries this)%Z then
              Some (Raised (rethrow "Failed to create chat completion"
                                    error), net1)
            else
              attempt_loop fuel' this request attempts
                           (sleep (2 ^ attempts * 1000) net1)
        end
    end
  else Some (Raised max_retries_exceeded, net).

Definition createChatCompletion (this : AIService)
           (messages : list MessageParam)
           (functions : option (list FunctionDefinition)) (net : Net)
  : option (Result AIServiceResponse * Net) :=
  attempt_loop (Z.to_nat (maxRetries this)) this
               (completion_request this messages functions) 0 net.

(** The same loop for a retry count that is any number: [<] and [===]
    compare the integer [attempts] with it as numbers. *)
Fixpoint attempt_loop_any (fuel : nat) (maxRetries : Number)
         (request : Req.t) (attempts : Z) (net : Net)
  : option (Result AIServiceResponse * Net) :=
  if below attempts maxRetries then
    match fuel with
    | O => None
    | S fuel' =>
        let net1 := send request net in
        match try_create (length (requests net)) request with
        | Fulfilled response => Some (Returned response, net1)
        | Rejected error =>
            let attempts := attempts + 1 in
            if same attempts maxRetries then
              Some (Raised (rethrow "Failed to create chat completion"
                                    error), net1)
            else
              attempt_loop_any fuel' maxRetries request attempts
                               (sleep (2 ^ attempts * 1000) net1)
        end
    end
  else Some (Raised max_retries_exceeded, net).

Definition sendMessage (this : AIService) (message : string)
           (systemPrompt : option string) (net : Net)
  : option (Result AIServiceResponse * Net) :=
  let messages :=
    (match truthy systemPrompt with
     | Some prompt =>
         [{| Msg.role := system; Msg.content := prompt; Msg.name := None |}]
     | None => []
     end
     ++ [{| Msg.role := user; Msg.content := message; Msg.name := None |}])%list
  in
  createChatCompletion this messages None net.

Definition chat (this : AIService) (messages : list ChatMessage)
           (systemPrompt : option string) (net : Net)
  : option (Result AIServiceResponse * Net) :=
  let formattedMessages :=
    with_system systemPrompt (map format_message messages) in
  createChatCompletion this formattedMessages None net.

Definition createChatCompletionWithFunctions (this : AIService)
           (messages : list ChatMessage)
           (functions : list FunctionDefinition)
           (systemPrompt : option string) (net : Net)
  : option (Result AIServiceResponse * Net) :=
  let formattedMessages :=
    with_system systemPrompt (map format_message messages) in
  createChatCompletion this formattedMessages (Some functions) net.

(** The loop [for await (const chunk of stream)] over the chunks the
    stream yields. *)
Fixpoint consume (onToken : option (string -> Settled unit))
         (rest : list Chunk.t) (fullContent : string) (net : Net)
  : Settled string * Net :=
  match rest with
  | [] => (Fulfilled fullContent, net)
  | chunk :: rest' =>
      match read_token chunk with
      | Rejected error => (Rejected error, net)
      | Fulfilled token =>
          let fullContent := fullContent ++ token in
          match onToken with
          | Some callback =>
              match callback token with
              | Fulfilled _ =>
                  consume onToken rest' fullContent (hand_over token net)
              | Rejected error => (Rejected error, hand_over token net)
              end
          | None => consume onToken rest' fullContent net
          end
      end
  end.

(** The request of [streamChatCompletion]. *)
Definition stream_request (this : AIService)
           (formattedMessages : list MessageParam) : Req.t :=
  {| Req.model := model this;
     Req.messages := formattedMessages;
     Req.temperature := Some (temperature this);
     Req.tools := None;
     Req.stream := true;
     Req.max_tokens := None |}.

Definition streamChatCompletion (this : AIService)
           (messages : list ChatMessage) (systemPrompt : option string)
           (onToken : option (string -> Settled unit)) (net : Net)
  : Result AIServiceResponse * Net :=
  let formattedMessages :=
    with_system systemPrompt (map format_message messages) in
  let request := stream_request this formattedMessages in
  let fail error :=
    Raised (rethrow "Failed to stream chat completion" error) in
  match create_stream (length (requests net)) request with
  | Rejected error => (fail error, send request net)
  | Fulfilled stream =>
      match consume onToken (chunks stream) EmptyString
                    (send request net) with
      | (Rejected error, net') => (fail error, net')
      | (Fulfilled fullContent, net') =>
          match failure stream with
          | Some error => (fail error, net')
          | None =>
              (Returned {| Out.content := fullContent;
                           Out.usage := None;
                           Out.functionCall := None |}, net')
          end
      end
  end.

Definition countTokens (this : AIService) (text : string) (net : Net)
  : Result Z * Net :=
  let request :=
    {| Req.model := model this;
       Req.messages :=
         [{| Msg.role := user; Msg.content := text; Msg.name := None |}];
       Req.temperature := None;
       Req.tools := None;
       Req.stream := false;
       Req.max_tokens := Some 1 |} in
  match create (length (requests net)) request with
  | Fulfilled response =>
      (Returned (tokens_in (Resp.usage response)), send request net)
  | Rejected error =>
      (Raised (rethrow "Failed to count tokens" error), send request net)
  end.

End Service.

(** The delays before the second, third, ... attempt: [2 ^ i * 1000] ms
    after the [i]-th failure. *)
Definition backoff (failures : nat) : list Z :=
  map (fun i => 2 ^ Z.of_nat i * 1000) (seq 1 failures).

(** The delays asked for after the failures [1 .. failures] of a loop
    that starts with [attempts] failures behind it. *)
Definition delays_from (attempts : Z) (failures : nat) : list Z :=
  map (fun i => 2 ^ (attempts + Z.of_nat i) * 1000) (seq 1 failures).

(** What the last attempt makes of [createChatCompletion]: its response
    is returned, or its error is thrown again once the attempts are used
    up. *)
Definition closes (this : AIService) (last : Settled AIServiceResponse)
           (r : Result AIServiceResponse) (attempts_after : Z) : Prop :=
  match last with
  | Fulfilled response => r = Returned response
  | Rejected error =>
      r = Raised (rethrow "Failed to create chat completion" error) /\
      attempts_after = maxRetries this
  end.

(** What the last attempt makes of the loop for a finite retry count:
    its response is returned; or its error is thrown again, when the
    failures have reached the count exactly; or, when they have passed a
    count that is no integer, a further delay is asked for and the loop
    ends with [Max retries exceeded].  [n] counts the requests and [d] the
    delays. *)
Definition ending (last : Settled AIServiceResponse)
           (maxRetries : QArith_base.Q) (attempts_after : Z)
           (r : Result AIServiceResponse) (n d : nat) : Prop :=
  match last with
  | Fulfilled response => r = Returned response /\ d = (n - 1)%nat
  | Rejected error =>
      (QArith_base.Qeq (QArith_base.inject_Z attempts_after) maxRetries /\
       r = Raised (rethrow "Failed to create chat completion" error) /\
       d = (n - 1)%nat) \/
      (~ QArith_base.Qeq (QArith_base.inject_Z attempts_after) maxRetries /\
       ~ QArith_base.Qlt (QArith_base.inject_Z attempts_after) maxRetries /\
       r = Raised max_retries_exceeded /\
       d = n)
  end.


(** The texts of a list, one after the other. *)
Definition join (parts : list string) : string :=
  fold_right String.append EmptyString parts.

(** ** Example inputs *)

Definition overloaded : Thrown :=
  ThrownError {| error_name := "APIError";
                 error_message := "Overloaded";
                 error_status := Present (Some 529);
                 error_code := Absent |}.
Definition hello : Resp.t :=
  {| Resp.content := [{| Resp.text := "Hello" |}];
     Resp.usage := Some {| Resp.input_tokens := Some 12;
                           Resp.output_tokens := Some 5 |};
     Resp.tool_calls := None |}.

(** A client whose first [failures] calls are rejected and whose later
    calls are answered by [hello]. *)
Definition flaky (failures : nat) : nat -> Req.t -> Settled Resp.t :=
  fun n _ => if (n <? failures)%nat then Rejected overloaded
             else Fulfilled hello.

Definition sample_service : AIService :=
  {| apiKey := "sk-test";
     model := "claude-3-opus-20240229";
     maxRetries := 3;
     temperature := QArith_base.Qmake 7 10 |}.

(** A configuration whose settings are all falsy, and one whose settings
    are all kept. *)
Definition falsy_config : AIConfig :=
  {| Config.apiKey := "sk-test";
     Config.model := Some EmptyString;
     Config.maxRetries := Some NaN;
     Config.temperature := Some (Finite (QArith_base.Qmake 0 1)) |}.
Definition default_settings : Any.t :=
  {| Any.apiKey := "sk-test";
     Any.model := "claude-3-opus-20240229";
     Any.maxRetries := Finite (QArith_base.Qmake 3 1);
     Any.temperature := Finite (QArith_base.Qmake 7 10) |}.
Definition custom_config : AIConfig :=
  {| Config.apiKey := "sk-test";
     Config.model := Some "claude-3-haiku";
     Config.maxRetries := Some (Finite (QArith_base.Qmake 5 2));
     Config.temperature := Some PlusInfinity |}.

(** Messages with a name, with an empty name and without a name. *)
Definition named_messages : list ChatMessage :=
  [{| Msg.role := user; Msg.content := "Hi"; Msg.name := Some "bob" |};
   {| Msg.role := assistant; Msg.content := "Hello";
      Msg.name := Some EmptyString |};
   {| Msg.role := user; Msg.content := "Bye"; Msg.name := None |}].

Definition hi : list MessageParam :=
  [{| Msg.role := user; Msg.content := "Hi"; Msg.name := None |}].

(** A stream of two chunks and a third whose content is empty. *)
Definition two_words : Stream :=
  {| chunks :=
       [{| Chunk.content := Some [{| Chunk.text := Some "Hel" |}] |};
        {| Chunk.content := Some [{| Chunk.text := Some "lo" |}] |};
        {| Chunk.content := Some [] |}];
     failure := None |}.
Definition always (stream : Stream) : nat -> Req.t -> Settled Stream :=
  fun _ _ => Fulfilled stream.
Definition quiet_callback : string -> Settled unit :=
  fun _ => Fulfilled tt.

End AI.

(** * Properties *)

(** ** Texts *)

(** A fact about closed texts, settled by evaluation. *)
Ltac by_evaluation := vm_compute; reflexivity.

Module TextFacts.

Lemma append_assoc (a b c : string) : (a ++ b) ++ c = a ++ b ++ c.
Proof.
  induction a as [|x a IH]; simpl; [reflexivity|].
  now rewrite IH.
Qed.

Lemma append_empty_r (a : string) : a ++ EmptyString = a.
Proof.
  induction a as [|x a IH]; simpl; [reflexivity|].
  now rewrite IH.
Qed.


Lemma prefix_iff (p s : string) :
  prefix p s = true <-> exists b, s = p ++ b.
Proof.
  revert s; induction p as [|x p IH]; intros s.
  - destruct s; split; intros _; try reflexivity; eexists; reflexivity.
  - destruct s as [|y s]; simpl.
    + split; [discriminate|]. intros [b Hb]; discriminate.
    + destruct (ascii_dec x y) as [->|Hne].
      * rewrite IH. split; intros [b Hb]; exists b.
        -- now rewrite Hb.
        -- now injection Hb.
      * split; [discriminate|].
        intros [b Hb]. injection Hb as Hxy _. congruence.
Qed.

Lemma includes_iff (p s : string) :
  includes p s = true <-> Substring p s.
Proof.
  induction s as [|y s IH].
  - cbn [includes]. rewrite orb_false_r, prefix_iff. split.
    + intros [b Hb]. exists EmptyString, b. exact Hb.
    + intros [a [b Hab]]. destruct a; [now exists b|discriminate].
  - cbn [includes]. rewrite orb_true_iff, IH, prefix_iff. split.
    + intros [[b Hb]|[a [b Hab]]].
      * exists EmptyString, b. exact Hb.
      * exists (String y a), b. simpl. now rewrite Hab.
    + intros [a [b Hab]]. destruct a as [|x a].
      * left. now exists b.
      * right. exists a, b. simpl in Hab. now injection Hab.
Qed.

Lemma includes_false (p s : string) :
  includes p s = false -> ~ Substring p s.
Proof.
  intros H Hs. apply includes_iff in Hs. congruence.
Qed.

Lemma Substring_refl (p : string) : Substring p p.
Proof. exists EmptyString, EmptyString. simpl. now rewrite append_empty_r. Qed.

Lemma Substring_middle (a p b : string) : Substring p (a ++ p ++ b).
Proof. now exists a, b. Qed.

Lemma Substring_app_l (p s t : string) :
  Substring p s -> Substring p (s ++ t).
Proof.
  intros [a [b ->]]. exists a, (b ++ t).
  now rewrite !append_assoc.
Qed.

Lemma Substring_app_r (p s t : string) :
  Substring p t -> Substring p (s ++ t).
Proof.
  intros [a [b ->]]. exists (s ++ a), b.
  now rewrite !append_assoc.
Qed.

Lemma Substring_trans (p q s : string) :
  Substring p q -> Substring q s -> Substring p s.
Proof.
  intros Hpq [a [b ->]].
  apply Substring_app_r, Substring_app_l, Hpq.
Qed.

(** Two prefixes of one text are comparable. *)
Lemma compat_common (p b x r : string) :
  p ++ b = x ++ r -> compat p x = true.
Proof.
  revert x; induction p as [|c p IH]; intros x H; [reflexivity|].
  destruct x as [|d x]; [reflexivity|].
  simpl in *. injection H as -> H.
  rewrite Ascii.eqb_refl. simpl. now apply IH.
Qed.

Lemma no_start_sound (p x r : string) :
  no_start p x = true -> Substring p (x ++ r) -> Substring p r.
Proof.
  induction x as [|c x IH]; intros Hn Hs; [exact Hs|].
  cbn [no_start] in Hn. apply andb_true_iff in Hn as [Hc Hn].
  destruct Hs as [a [b Hab]]. destruct a as [|d a].
  - simpl in Hab. symmetry in Hab.
    change (String c x ++ r) with (String c (x ++ r)) in Hc.
    apply (compat_common p b (String c x) r) in Hab.
    rewrite Hab in Hc. discriminate.
  - simpl in Hab. injection Hab as _ Hab.
    apply IH; [exact Hn|]. now exists a, b.
Qed.

Lemma no_end_suffix (p0 q y : string) :
  no_end (p0 ++ q) y = true -> q <> EmptyString -> prefix q y = false.
Proof.
  induction p0 as [|c p0 IH]; intros Hn Hq.
  - destruct q as [|c q]; [congruence|]. simpl in Hn.
    cbn [no_end] in Hn. apply andb_true_iff in Hn as [Hn _].
    now apply negb_true_iff in Hn.
  - simpl in Hn. cbn [no_end] in Hn.
    apply andb_true_iff in Hn as [_ Hn]. now apply IH.
Qed.

(** A prefix [p] of [m ++ y] lies inside [m] or runs over into [y]. *)
Lemma prefix_of_append (p b m y : string) :
  p ++ b = m ++ y ->
  (exists b', m = p ++ b') \/
  (exists q, q <> EmptyString /\ p = m ++ q /\ prefix q y = true).
Proof.
  revert m; induction p as [|c p IH]; intros m H.
  - left. now exists m.
  - destruct m as [|d m].
    + right. exists (String c p). repeat split; [discriminate|].
      apply prefix_iff. exists b. simpl in H. now rewrite <- H.
    + simpl in H. injection H as -> H.
      destruct (IH m H) as [[b' ->]|[q [Hq [-> Hp]]]].
      * left. now exists b'.
      * right. exists q. now repeat split.
Qed.

Lemma no_end_sound (p m y : string) :
  no_end p y = true -> includes p y = false ->
  Substring p (m ++ y) -> Substring p m.
Proof.
  intros Hn Hy. induction m as [|c m IH]; intros Hs.
  - now apply includes_false in Hy.
  - destruct Hs as [a [b Hab]]. destruct a as [|d a].
    + simpl in Hab. symmetry in Hab.
      change (String c (m ++ y)) with (String c m ++ y) in Hab.
      destruct (prefix_of_append _ _ _ _ Hab) as [[b' ->]|[q [Hq [-> Hp]]]].
      * exists EmptyString, b'. reflexivity.
      * rewrite (no_end_suffix _ _ _ Hn Hq) in Hp. discriminate.
    + simpl in Hab. injection Hab as _ Hab.
      destruct IH as [a' [b' ->]]; [now exists a, b|].
      now exists (String c a'), b'.
Qed.

(** An occurrence of [p] in [x ++ m ++ y] lies inside [m] when none can
    start in [x] and none can end in [y]. *)
Lemma confined (p x m y : string) :
  no_start p x = true -> no_end p y = true -> includes p y = false ->
  Substring p (x ++ m ++ y) -> Substring p m.
Proof.
  intros Hx Hn Hy Hs.
  apply (no_end_sound p m y Hn Hy), (no_start_sound p x _ Hx), Hs.
Qed.

End TextFacts.
Import TextFacts.

(** [p] occurs in a closed text: run [includes]. *)
Ltac found := apply includes_iff; by_evaluation.
(** [p] does not occur in a closed text. *)
Ltac not_found := apply includes_false; by_evaluation.

(** ** The compile procedure *)

Section CompileProcedure.

Variable transform : Babel.engine.

Lemma errorDocument_split (m : string) :
  errorDocument m = error_head ++ m ++ error_tail.
Proof.
  unfold errorDocument, error_head, error_tail, lines.
  cbn [String.concat]. rewrite !append_assoc. reflexivity.
Qed.

Lemma iframeContent_split (c : string) :
  iframeContent c = success_head ++ c ++ success_tail.
Proof.
  unfold iframeContent, success_head, success_tail, lines.
  cbn [String.concat]. rewrite !append_assoc. reflexivity.
Qed.

Lemma runCode_accepted (sourceText : string) (r : Babel.FileResult)
      (w : World) :
  transform sourceText babelOptions = Normal r ->
  runCode transform sourceText w =
  (Normal tt,
   after_compile (iframeContent (Babel.code r))
     (accepted_trace sourceText (iframeContent (Babel.code r))) w).
Proof.
  intros H.
  unfold runCode, try_finally, try_catch, bind, call_transform,
    setIsCompiling, setOutput.
  cbv beta iota zeta. rewrite H. cbv beta iota zeta.
  unfold after_compile, accepted_trace, emit, with_isCompiling,
    with_output.
  cbn [code output isCompiling now timers next_handle debounceTimer
       trace].
  rewrite <- !app_assoc. reflexivity.
Qed.

Lemma runCode_rejected (sourceText : string) (v : JsValue) (w : World) :
  transform sourceText babelOptions = Throw v ->
  runCode transform sourceText w =
  (Normal tt,
   after_compile (errorDocument (errorMessage_of v))
     (rejected_trace sourceText v (errorDocument (errorMessage_of v))) w).
Proof.
  intros H.
  unfold runCode, try_finally, try_catch, bind, call_transform,
    setIsCompiling, setOutput, console_error.
  cbv beta iota zeta. rewrite H. cbv beta iota zeta.
  unfold after_compile, rejected_trace, emit, with_isCompiling,
    with_output.
  cbn [code output isCompiling now timers next_handle debounceTimer
       trace].
  rewrite <- !app_assoc. reflexivity.
Qed.

(** Every compile procedure ends normally in a world of the shape
    [after_compile]. *)
Lemma runCode_cases (sourceText : string) (w : World) :
  exists document new,
    runCode transform sourceText w =
    (Normal tt, after_compile document new w) /\
    ((exists r, transform sourceText babelOptions = Normal r /\
                document = iframeContent (Babel.code r) /\
                new = accepted_trace sourceText document) \/
     (exists v, transform sourceText babelOptions = Throw v /\
                document = errorDocument (errorMessage_of v) /\
                new = rejected_trace sourceText v document)).
Proof.
  destruct (transform sourceText babelOptions) as [r|v] eqn:H.
  - eexists _, _. split; [apply (runCode_accepted _ r _ H)|].
    left. now exists r.
  - eexists _, _. split; [apply (runCode_rejected _ v _ H)|].
    right. now exists v.
Qed.

(** A compile procedure touches neither the source text nor the timers
    nor the clock. *)
Lemma runCode_frame (sourceText : string) (w : World) :
  let w' := exec (runCode transform sourceText) w in
  code w' = code w /\ timers w' = timers w /\ now w' = now w /\
  next_handle w' = next_handle w /\ debounceTimer w' = debounceTimer w /\
  isCompiling w' = false.
Proof.
  destruct (runCode_cases sourceText w) as [d [new [H _]]].
  unfold exec. rewrite H. cbn. repeat split.
Qed.

(** The document a compile procedure publishes does not depend on the
    world it starts in. *)
Lemma runCode_output_independent (sourceText : string) (wa wb : World) :
  output (exec (runCode transform sourceText) wa) =
  output (exec (runCode transform sourceText) wb).
Proof.
  unfold exec.
  destruct (runCode_cases sourceText wa) as [da [na [Ha Hca]]].
  destruct (runCode_cases sourceText wb) as [db [nb [Hb Hcb]]].
  rewrite Ha, Hb. cbn [snd after_compile output].
  destruct Hca as [[ra [Hra [-> _]]]|[va [Hva [-> _]]]];
    destruct Hcb as [[rb [Hrb [-> _]]]|[vb [Hvb [-> _]]]];
    congruence.
Qed.

Lemma bootstrap_confined (s m : string) :
  In s bootstrap_scripts ->
  Substring s (errorDocument m) -> Substring s m.
Proof.
  intros Hin. rewrite errorDocument_split.
  unfold bootstrap_scripts in Hin. cbn [In] in Hin.
  repeat (destruct Hin as [<-|Hin];
          [apply confined; by_evaluation|]).
  contradiction.
Qed.

End CompileProcedure.

(** ** The event loop *)

Section EventLoop.

Variable transform : Babel.engine.

Lemma compiled_app (a b : list Effect) :
  compiled (a ++ b) = (compiled a ++ compiled b)%list.
Proof.
  induction a as [|e a IH]; [reflexivity|].
  destruct e; cbn; now rewrite ?IH.
Qed.

Lemma transform_calls_app (a b : list Effect) :
  transform_calls (a ++ b) = (transform_calls a ++ transform_calls b)%list.
Proof.
  induction a as [|e a IH]; [reflexivity|].
  destruct e; cbn; now rewrite ?IH.
Qed.

Lemma published_app (a b : list Effect) :
  published (a ++ b) = (published a ++ published b)%list.
Proof.
  induction a as [|e a IH]; [reflexivity|].
  destruct e; cbn; now rewrite ?IH.
Qed.

(** What one compile procedure adds to the trace. *)
Lemma runCode_exec (sourceText : string) (w : World) :
  exists document new,
    exec (runCode transform sourceText) w = after_compile document new w /\
    compiled new = [sourceText] /\
    transform_calls new = [(sourceText, babelOptions)] /\
    published new = [document].
Proof.
  destruct (runCode_cases transform sourceText w)
    as [d [new [H [[r [_ [_ ->]]]|[v [_ [_ ->]]]]]]];
    exists d; eexists; unfold exec; rewrite H; repeat split.
Qed.

Lemma next_due_In (t : Z) (ts : list Timer) (x : Timer) :
  next_due t ts = Some x -> In x ts /\ deadline x <= t.
Proof.
  induction ts as [|y ts IH]; [discriminate|]. cbn [next_due].
  destruct (next_due t ts) as [z|].
  - destruct (deadline y <=? t)%Z eqn:Hy; cbn [andb].
    + destruct (deadline y <=? deadline z)%Z; intros [= <-].
      * split; [now left|]. now apply Z.leb_le.
      * destruct (IH eq_refl) as [Hin Hle]. split; [now right|exact Hle].
    + intros [= <-]. destruct (IH eq_refl) as [Hin Hle].
      split; [now right|exact Hle].
  - destruct (deadline y <=? t)%Z eqn:Hy; [|discriminate].
    intros [= <-]. split; [now left|]. now apply Z.leb_le.
Qed.

Lemma next_due_none (t : Z) (ts : list Timer) :
  Forall (fun x => t < deadline x) ts -> next_due t ts = None.
Proof.
  induction 1 as [|y ts Hy _ IH]; [reflexivity|].
  cbn [next_due]. rewrite IH.
  destruct (Z.leb_spec (deadline y) t); [lia|reflexivity].
Qed.

Lemma Forall_filter {A} (P : A -> Prop) (f : A -> bool) (l : list A) :
  Forall P l -> Forall P (filter f l).
Proof.
  rewrite !Forall_forall. intros H x Hx.
  apply filter_In in Hx as [Hx _]. now apply H.
Qed.

(** The world a firing timer leaves. *)
Lemma fire_exec (x : Timer) (w : World) :
  exists document new,
    fire transform x w =
    after_compile document new
      (with_timers
         (filter (fun t => negb (Nat.eqb (handle t) (handle x)))
                 (timers w))
         (with_now (Z.max (now w) (deadline x)) w)) /\
    compiled new = [captured_code x] /\
    transform_calls new = [(captured_code x, babelOptions)] /\
    published new = [document].
Proof.
  unfold fire. apply runCode_exec.
Qed.

(** Firing a pending timer of a settled page: the page stays settled and
    one compile procedure ran on the stored text. *)
Lemma fire_settled (x : Timer) (w : World) :
  settled w -> In x (timers w) ->
  settled (fire transform x w) /\
  code (fire transform x w) = code w /\
  (length (timers (fire transform x w)) < length (timers w))%nat /\
  exists new,
    trace (fire transform x w) = (trace w ++ new)%list /\
    calls_on (code w) new.
Proof.
  intros [Hidle Hown] Hin.
  destruct (fire_exec x w) as [d [new [-> [_ [Hcalls _]]]]].
  assert (Hx : owned w x) by (rewrite Forall_forall in Hown; auto).
  cbn. repeat split.
  - apply Forall_filter. exact Hown.
  - clear - Hin. induction (timers w) as [|y ts IH]; [destruct Hin|].
    cbn [filter]. destruct Hin as [->|Hin].
    + rewrite Nat.eqb_refl. cbn [negb length].
      pose proof (filter_length_le
                    (fun t => negb (Nat.eqb (handle t) (handle x))) ts).
      lia.
    + specialize (IH Hin).
      destruct (negb (Nat.eqb (handle y) (handle x))); cbn [length]; lia.
  - exists new. split; [reflexivity|].
    unfold calls_on. rewrite Hcalls. destruct Hx as [_ ->].
    now constructor.
Qed.

Lemma calls_on_app (c : string) (a b : list Effect) :
  calls_on c a -> calls_on c b -> calls_on c (a ++ b).
Proof.
  unfold calls_on. rewrite transform_calls_app. intros Ha Hb.
  apply Forall_app. now split.
Qed.

Lemma fire_due_settled (fuel : nat) (t : Z) (w : World) :
  settled w ->
  settled (fire_due transform fuel t w) /\
  code (fire_due transform fuel t w) = code w /\
  exists new,
    trace (fire_due transform fuel t w) = (trace w ++ new)%list /\
    calls_on (code w) new.
Proof.
  revert w; induction fuel as [|fuel IH]; intros w Hw; cbn [fire_due].
  - repeat split; try apply Hw. exists []. rewrite app_nil_r.
    split; [reflexivity|constructor].
  - destruct (next_due t (timers w)) as [x|] eqn:Hx.
    + apply next_due_In in Hx as [Hin _].
      destruct (fire_settled x w Hw Hin) as [Hs [Hc [_ [n1 [Ht1 Hn1]]]]].
      destruct (IH _ Hs) as [Hs' [Hc' [n2 [Ht2 Hn2]]]].
      split; [exact Hs'|]. split; [congruence|].
      exists (n1 ++ n2)%list. rewrite Ht2, Ht1, app_assoc.
      split; [reflexivity|]. apply calls_on_app; [exact Hn1|].
      now rewrite <- Hc.
    + repeat split; try apply Hw. exists []. rewrite app_nil_r.
      split; [reflexivity|constructor].
Qed.

(** One round per pending timer is enough: nothing due is left. *)
Lemma fire_due_complete (fuel : nat) (t : Z) (w : World) :
  settled w -> (length (timers w) <= fuel)%nat ->
  next_due t (timers (fire_due transform fuel t w)) = None.
Proof.
  revert w; induction fuel as [|fuel IH]; intros w Hw Hlen;
    cbn [fire_due].
  - destruct (timers w); [reflexivity|cbn in Hlen; lia].
  - destruct (next_due t (timers w)) as [x|] eqn:Hx; [|exact Hx].
    apply next_due_In in Hx as [Hin _].
    destruct (fire_settled x w Hw Hin) as [Hs [_ [Hl _]]].
    apply IH; [exact Hs|lia].
Qed.

Lemma with_now_settled (t : Z) (w : World) :
  settled w -> settled (with_now t w).
Proof. intros H; exact H. Qed.

Lemma elapse_settled (ms : Z) (w : World) :
  settled w ->
  settled (elapse transform ms w) /\
  code (elapse transform ms w) = code w /\
  exists new,
    trace (elapse transform ms w) = (trace w ++ new)%list /\
    calls_on (code w) new.
Proof.
  intros Hw. unfold elapse.
  destruct (fire_due_settled (length (timers w))
              (now w + Z.max 0 ms) w Hw) as [Hs [Hc Hn]].
  split; [apply with_now_settled, Hs|]. split; [exact Hc|exact Hn].
Qed.

(** Nothing is left due after [elapse]. *)
Lemma elapse_complete (ms : Z) (w : World) :
  settled w ->
  next_due (now (elapse transform ms w))
           (timers (elapse transform ms w)) = None.
Proof.
  intros Hw. unfold elapse. cbn [now timers with_now].
  now apply fire_due_complete.
Qed.

Lemma click_idle (w : World) :
  isCompiling w = false ->
  click transform w = exec (runCode transform (code w)) w.
Proof.
  intros H. unfold click, render. cbn [compile_button disabled].
  now rewrite H.
Qed.

Lemma click_settled (w : World) :
  settled w ->
  settled (click transform w) /\
  code (click transform w) = code w /\
  exists new,
    trace (click transform w) = (trace w ++ new)%list /\
    compiled new = [code w] /\
    transform_calls new = [(code w, babelOptions)].
Proof.
  intros Hw. rewrite (click_idle w (proj1 Hw)).
  destruct (runCode_exec (code w) w) as [d [new [-> [Hc [Ht _]]]]].
  split; [split; [reflexivity|apply Hw]|].
  split; [reflexivity|]. now exists new.
Qed.

(** In a settled page the effect clean-up empties the timer table. *)
Lemma cleanup_clears (w : World) :
  Forall (fun t => debounceTimer w = Some (handle t)) (timers w) ->
  timers (effect_cleanup w) = [] /\
  code (effect_cleanup w) = code w /\
  now (effect_cleanup w) = now w /\
  next_handle (effect_cleanup w) = next_handle w /\
  isCompiling (effect_cleanup w) = isCompiling w /\
  exists new,
    trace (effect_cleanup w) = (trace w ++ new)%list /\
    transform_calls new = [] /\ compiled new = [].
Proof.
  intros H. unfold effect_cleanup.
  destruct (debounceTimer w) as [h|] eqn:Hd.
  - cbn. repeat split.
    + induction H as [|t ts Ht _ IH]; [reflexivity|].
      cbn [filter]. injection Ht as ->. rewrite Nat.eqb_refl. exact IH.
    + now exists [ClearTimeout h].
  - repeat split.
    + destruct H as [|t ts Ht _]; [reflexivity|discriminate].
    + exists []. now rewrite app_nil_r.
Qed.

(** An update to the text already stored: no render follows, the effect
    does not run, the timer table is as it was. *)
Lemma onChange_same (value : option string) (w : World) :
  or_empty value = code w ->
  onChange value w = emit (SetCode (code w)) (with_code (code w) w).
Proof.
  intros H. unfold onChange. cbv zeta. rewrite H, String.eqb_refl.
  reflexivity.
Qed.

(** An update to another text: the pending timer is cancelled and a
    fresh one is armed for the new text, 1000 ms from now. *)
Lemma onChange_changed (value : option string) (w : World) :
  settled w -> or_empty value <> code w ->
  let w' := onChange value w in
  settled w' /\
  code w' = or_empty value /\
  timers w' =
    [mkTimer (next_handle w) (now w + 1000) (or_empty value)] /\
  now w' = now w /\
  exists new,
    trace w' = (trace w ++ new)%list /\
    transform_calls new = [] /\ compiled new = [].
Proof.
  intros [Hidle Hown] Hne. unfold onChange. cbv zeta.
  destruct (String.eqb_spec (or_empty value) (code w)) as [|_];
    [contradiction|].
  set (w1 := exec (setCode (or_empty value)) w).
  assert (H1 : Forall (fun t => debounceTimer w1 = Some (handle t))
                      (timers w1)).
  { cbn. eapply Forall_impl; [|exact Hown]. now intros t [Ht _]. }
  pose proof (cleanup_clears w1 H1) as H.
  remember (effect_cleanup w1) as w2 eqn:E. clear E.
  destruct H as [Ht [Hc [Hn [Hh [Hi [new [Htr [Hcalls Hcomp]]]]]]]].
  subst w1. cbn in Hc, Hn, Hh, Hi, Htr.
  unfold effect_body, setTimeout_runCode. cbn.
  rewrite Ht, Hc, Hn, Hh, Htr. cbn [app]. repeat split.
  - cbn. now rewrite Hi.
  - repeat constructor. cbn. now rewrite Hc.
  - exists ([SetCode (or_empty value)] ++ new
            ++ [SetTimeout (next_handle w) 1000])%list.
    rewrite <- !app_assoc. split; [reflexivity|].
    cbn. rewrite transform_calls_app, compiled_app, Hcalls, Hcomp.
    now split.
Qed.

Lemma onChange_settled (value : option string) (w : World) :
  settled w ->
  settled (onChange value w) /\
  exists new,
    trace (onChange value w) = (trace w ++ new)%list /\
    transform_calls new = [].
Proof.
  intros Hw.
  destruct (String.eqb_spec (or_empty value) (code w)) as [He|Hne].
  - rewrite (onChange_same _ _ He). split.
    + exact Hw.
    + now exists [SetCode (code w)].
  - destruct (onChange_changed value w Hw Hne)
      as [Hs [_ [_ [_ [new [Ht [Hc _]]]]]]].
    split; [exact Hs|]. now exists new.
Qed.

Lemma mount_settled : settled mount.
Proof. split; [reflexivity|]. repeat constructor. Qed.

(** Every step keeps the page settled, and every call of the engine it
    makes is on the stored text with the options of [runCode]. *)
Lemma step_settled (e : Event) (w : World) :
  settled w ->
  settled (step transform e w) /\
  exists new,
    trace (step transform e w) = (trace w ++ new)%list /\
    calls_on (code (step transform e w)) new.
Proof.
  intros Hw. destruct e as [value| |ms]; cbn [step].
  - destruct (onChange_settled value w Hw) as [Hs [new [Ht Hc]]].
    split; [exact Hs|]. exists new. split; [exact Ht|].
    unfold calls_on. rewrite Hc. constructor.
  - destruct (click_settled w Hw) as [Hs [Hc [new [Ht [_ Hcalls]]]]].
    split; [exact Hs|]. exists new. split; [exact Ht|].
    unfold calls_on. rewrite Hcalls, Hc. now constructor.
  - destruct (elapse_settled ms w Hw) as [Hs [Hc [new [Ht Hcalls]]]].
    split; [exact Hs|]. exists new. split; [exact Ht|].
    now rewrite Hc.
Qed.

Lemma reachable_settled (w : World) :
  reachable transform w -> settled w.
Proof.
  induction 1 as [|w e _ IH]; [apply mount_settled|].
  now apply step_settled.
Qed.

End EventLoop.

(** ** Debouncing *)

Section Debounce.

Variable transform : Babel.engine.

(** Before its deadline the only pending timer stays pending. *)
Lemma elapse_quiet (ms : Z) (w : World) (t : Timer) :
  timers w = [t] -> now w + Z.max 0 ms < deadline t ->
  elapse transform ms w = with_now (now w + Z.max 0 ms) w.
Proof.
  intros Ht Hlt. unfold elapse. rewrite Ht. cbn [length fire_due].
  rewrite Ht. cbn [next_due].
  destruct (Z.leb_spec (deadline t) (now w + Z.max 0 ms)); [lia|].
  reflexivity.
Qed.

(** At its deadline it fires: one compile procedure on the text it
    captured, and the table is empty. *)
Lemma elapse_fires (ms : Z) (w : World) (t : Timer) :
  timers w = [t] -> deadline t <= now w + Z.max 0 ms ->
  exists document new,
    elapse transform ms w =
    with_now (now w + Z.max 0 ms)
      (after_compile document new
         (with_timers [] (with_now (Z.max (now w) (deadline t)) w))) /\
    compiled new = [captured_code t] /\
    published new = [document].
Proof.
  intros Ht Hle. unfold elapse. rewrite Ht. cbn [length fire_due].
  rewrite Ht. cbn [next_due].
  destruct (Z.leb_spec (deadline t) (now w + Z.max 0 ms)); [|lia].
  destruct (fire_exec transform t w) as [d [new [-> [Hc [_ Hp]]]]].
  exists d, new. rewrite Ht. cbn [filter]. rewrite Nat.eqb_refl.
  cbn [negb]. now repeat split.
Qed.

(** After an update that armed the timer, any further burst of changing
    updates less than 1000 ms apart, followed by a quiet second, runs
    one compile procedure, on the last text. *)
Lemma burst_tail (rest : list (Z * option string)) (quiet : Z) :
  forall (w : World) (t : Timer),
    settled w -> timers w = [t] ->
    deadline t = now w + 1000 -> captured_code t = code w ->
    all_change (code w) (map snd rest) ->
    Forall (fun dv => 0 <= fst dv < 1000) rest ->
    1000 <= quiet ->
    let w' :=
      run transform
        (flat_map (fun dv => [Elapse (fst dv); Edit (snd dv)]) rest
         ++ [Elapse quiet]) w in
    compiled (trace w') =
      (compiled (trace w) ++ [last_text (code w) (map snd rest)])%list /\
    code w' = last_text (code w) (map snd rest) /\
    timers w' = [] /\
    isCompiling w' = false.
Proof.
  induction rest as [|[d v] rest IH];
    intros w t Hw Ht Hd Hc Hch Hgap Hq; cbv zeta.
  - cbn [flat_map app map last_text run fold_left step].
    destruct (elapse_fires quiet w t Ht ltac:(lia))
      as [doc [new [-> [Hn _]]]].
    cbn. rewrite compiled_app, Hn, Hc. now repeat split.
  - cbn [flat_map app map snd fst last_text run fold_left step].
    cbn [map snd all_change] in Hch. destruct Hch as [Hne Hch].
    apply Forall_cons_iff in Hgap as [Hd0 Hgap]. cbn [fst] in Hd0.
    rewrite (elapse_quiet d w t Ht ltac:(lia)).
    set (w1 := with_now (now w + Z.max 0 d) w).
    assert (Hw1 : settled w1) by (apply with_now_settled, Hw).
    destruct (onChange_changed v w1 Hw1 Hne)
      as [Hs [Hcode [Htim [Hnow [new [Htr [_ Hcomp]]]]]]].
    specialize (IH (onChange v w1) _ Hs Htim).
    cbn [deadline captured_code] in IH.
    rewrite Hnow, Hcode, Htr, compiled_app, Hcomp, app_nil_r in IH.
    apply IH; auto.
Qed.

End Debounce.

(** ** The documents *)

Section Documents.

Lemma append_nonempty (a b : string) :
  a <> EmptyString -> a ++ b <> EmptyString.
Proof. destruct a; [congruence|discriminate]. Qed.

Lemma iframeContent_nonempty (c : string) : iframeContent c <> EmptyString.
Proof.
  rewrite iframeContent_split. apply append_nonempty.
  intros H. vm_compute in H. discriminate.
Qed.

Lemma errorDocument_nonempty (m : string) : errorDocument m <> EmptyString.
Proof.
  rewrite errorDocument_split. apply append_nonempty.
  intros H. vm_compute in H. discriminate.
Qed.

(** Every element of the bootstrap is part of every success document. *)
Lemma bootstrap_in_success (s c : string) :
  In s bootstrap_scripts -> Substring s (iframeContent c).
Proof.
  intros Hin. rewrite iframeContent_split.
  unfold bootstrap_scripts in Hin. cbn [In] in Hin.
  repeat (destruct Hin as [<-|Hin];
          [first [ apply Substring_app_l; found
                 | do 2 apply Substring_app_r; found ]|]).
  contradiction.
Qed.

(** The fallback message holds no part of the bootstrap. *)
Lemma bootstrap_not_in_fallback (s : string) :
  In s bootstrap_scripts -> ~ Substring s unknown_error.
Proof.
  intros Hin. unfold bootstrap_scripts in Hin. cbn [In] in Hin.
  repeat (destruct Hin as [<-|Hin];
          [not_found|]).
  contradiction.
Qed.

Lemma code_onChange (value : option string) (w : World) :
  code (onChange value w) = or_empty value.
Proof.
  unfold onChange. cbv zeta.
  destruct (String.eqb_spec (or_empty value) (code w)) as [He|_];
    [reflexivity|].
  unfold effect_body, effect_cleanup, setTimeout_runCode, clearTimeout.
  cbn. destruct (debounceTimer w); reflexivity.
Qed.

End Documents.

(** ** Reading the documents *)

Module Reading.













(** Text without [<] and [&], followed by a tag, is character data. *)
Lemma character_data_plain (m r : string) :
  ~ Substring "<" m -> ~ Substring "&" m ->
  character_data (m ++ String "<"%char r) = Some m.
Proof.
  induction m as [|c m IH]; intros Hl Ha; [reflexivity|].
  cbn [append character_data].
  destruct (Ascii.eqb_spec c "<"%char) as [->|_].
  { exfalso. apply Hl. now exists EmptyString, m. }
  destruct (Ascii.eqb_spec c "&"%char) as [->|_].
  { exfalso. apply Ha. now exists EmptyString, m. }
  rewrite IH; [reflexivity| |].
  - intros [a [b Hab]]. apply Hl. exists (String c a), b. cbn. now rewrite Hab.
  - intros [a [b Hab]]. apply Ha. exists (String c a), b. cbn. now rewrite Hab.
Qed.

End Reading.
Import Reading.

(** ** The claims *)

Section Claims.

Variable transform : Babel.engine.

(** C1 (as amended).  When the engine throws on the source text, the compile
    procedure ends normally and publishes the error document: it holds
    the text [Error:] and the message shown, which is the message of the
    thrown error when that is an [Error].  The message is interpolated as
    it is, so an element of the runtime bootstrap occurs in the document
    only where the message itself holds it; the fixed part of the error
    document holds none, and neither does the fallback message. *)
Theorem rejected_source_yields_error_document
        (sourceText : string) (w : World) (v : JsValue) :
  transform sourceText babelOptions = Throw v ->
  let w' := exec (runCode transform sourceText) w in
  fst (runCode transform sourceText w) = Normal tt /\
  output w' = errorDocument (errorMessage_of v) /\
  published (trace w') = (published (trace w) ++ [output w'])%list /\
  Substring "Error:" (output w') /\
  Substring (errorMessage_of v) (output w') /\
  (forall name m, v = JsError name m -> Substring m (output w')) /\
  (forall s, In s bootstrap_scripts ->
             Substring s (output w') -> Substring s (errorMessage_of v)) /\
  (instanceof_Error v = false ->
   forall s, In s bootstrap_scripts -> ~ Substring s (output w')).
Proof.
  intros H. cbv zeta. unfold exec.
  rewrite (runCode_rejected transform sourceText v w H).
  cbn [fst snd after_compile output trace].
  split; [reflexivity|]. split; [reflexivity|].
  split.
  { rewrite published_app. reflexivity. }
  split.
  { rewrite errorDocument_split. apply Substring_app_l. found. }
  split.
  { rewrite errorDocument_split. apply Substring_middle. }
  split.
  { intros name m ->. cbn [errorMessage_of instanceof_Error message].
    rewrite errorDocument_split. apply Substring_middle. }
  split.
  { intros s Hin. now apply bootstrap_confined. }
  intros Hv s Hin Hs. apply bootstrap_confined in Hs; [|exact Hin].
  unfold errorMessage_of in Hs. rewrite Hv in Hs.
  now apply (bootstrap_not_in_fallback s Hin).
Qed.

(** C3.  After every compile procedure, whether the engine returned or
    threw, the status flag is Idle again and nothing propagates; the
    procedure set the flag to Compiling first and to Idle last, and the
    reset is the [finally] block of a [try]: whatever the body of such a
    [try] does, the flag is Idle after it. *)
Theorem status_idle_after_every_compile (sourceText : string) (w : World) :
  let w' := exec (runCode transform sourceText) w in
  isCompiling w' = false /\
  fst (runCode transform sourceText w) = Normal tt /\
  (exists mid,
      trace w' =
      (trace w ++ [SetIsCompiling true] ++ mid
               ++ [SetIsCompiling false])%list) /\
  (forall (A : Type) (body : M A) (w0 : World),
      isCompiling (exec (try_finally body (setIsCompiling false)) w0)
      = false).
Proof.
  cbv zeta. unfold exec.
  destruct (runCode_cases transform sourceText w)
    as [d [new [H [[r [_ [_ ->]]]|[v [_ [_ ->]]]]]]]; rewrite H;
    cbn [fst snd after_compile isCompiling trace].
  - repeat split.
    + now exists [CallTransform sourceText babelOptions; SetOutput d].
    + intros A body w0. unfold try_finally, setIsCompiling.
      destruct (body w0) as [[a|v] w1]; reflexivity.
  - repeat split.
    + now exists [CallTransform sourceText babelOptions;
                  ConsoleError "Error:" v; SetOutput d].
    + intros A body w0. unfold try_finally, setIsCompiling.
      destruct (body w0) as [[a|v'] w1]; reflexivity.
Qed.

(** C5.  In every state of the page the preview frame that receives the
    published document carries the sandbox attribute [allow-scripts] and
    nothing else: its only token is [allow-scripts], and
    [allow-same-origin] is not among its tokens. *)
Theorem preview_sandbox_is_scripts_only (w : World) :
  let frame := preview (render w) in
  srcDoc frame = output w /\
  sandbox frame = allow_scripts /\
  tokens (sandbox frame) = [allow_scripts] /\
  ~ In allow_same_origin (tokens (sandbox frame)) /\
  (forall sourceText,
      sandbox (preview (render (exec (runCode transform sourceText) w)))
      = allow_scripts).
Proof.
  cbv zeta. cbn [render preview srcDoc sandbox].
  split; [reflexivity|]. split; [reflexivity|].
  split; [reflexivity|]. split; [|reflexivity].
  vm_compute. intros [H|[]]. discriminate.
Qed.


(** C7.  Every compile procedure calls the engine exactly once, on the
    source text it was started on and with the options
    [{ presets: ['react', 'env'] }]; the call either returns a result,
    whose code goes into the success document, or throws, and the thrown
    value goes into the error document.  In every reachable state of the
    page, every call a step makes is on the stored source text with
    these options. *)
Theorem transform_called_with_fixed_presets :
  (forall sourceText w,
      transform_calls (trace (exec (runCode transform sourceText) w)) =
      (transform_calls (trace w)
       ++ [(sourceText, {| Babel.presets := ["react"; "env"] |})])%list) /\
  (forall sourceText w,
      (exists r,
          transform sourceText {| Babel.presets := ["react"; "env"] |}
          = Normal r /\
          output (exec (runCode transform sourceText) w)
          = iframeContent (Babel.code r)) \/
      (exists v,
          transform sourceText {| Babel.presets := ["react"; "env"] |}
          = Throw v /\
          output (exec (runCode transform sourceText) w)
          = errorDocument (errorMessage_of v))) /\
  (forall w e,
      reachable transform w ->
      exists new,
        trace (step transform e w) = (trace w ++ new)%list /\
        calls_on (code (step transform e w)) new).
Proof.
  split; [|split].
  - intros sourceText w.
    destruct (runCode_exec transform sourceText w)
      as [d [new [-> [_ [Hc _]]]]].
    cbn [after_compile trace]. now rewrite transform_calls_app, Hc.
  - intros sourceText w. unfold exec.
    destruct (runCode_cases transform sourceText w)
      as [d [new [H [[r [Hr [-> _]]]|[v [Hv [-> _]]]]]]]; rewrite H.
    + left. now exists r.
    + right. now exists v.
  - intros w e Hw. apply step_settled, (reachable_settled transform), Hw.
Qed.

(** C8 (as amended).  When the compile procedure catches the value the
    engine threw, the message shown is the value's own message if the
    value is an [Error] and [An unknown error occurred] otherwise; the
    published document holds that message, as it is, between [<pre>] and
    [</pre>], inside the block styled [color: red].  When the message
    holds neither [<] nor [&], as the fallback message does, it is the
    whole character data of the [pre] element: the first markup after
    [<pre>] is the template's [</pre>]. *)
Theorem caught_value_is_shown_preformatted_in_red
        (sourceText : string) (w : World) (v : JsValue) :
  transform sourceText babelOptions = Throw v ->
  let document := output (exec (runCode transform sourceText) w) in
  (forall name m, v = JsError name m -> errorMessage_of v = m) /\
  (instanceof_Error v = false ->
   errorMessage_of v = "An unknown error occurred") /\
  In (ConsoleError "Error:" v)
     (trace (exec (runCode transform sourceText) w)) /\
  (exists e0 e1 e2 e3,
      document =
      e0 ++ error_style_open ++ e1
         ++ "<pre>" ++ errorMessage_of v ++ "</pre>"
         ++ e2 ++ "</div>" ++ e3 /\
      includes "</div>" e1 = false) /\
  Substring "color: red;" error_style_open /\
  document = error_head ++ errorMessage_of v ++ error_tail /\
  (exists before, error_head = before ++ "<pre>") /\
  (exists after, error_tail = "</pre>" ++ after) /\
  (~ Substring "<" (errorMessage_of v) ->
   ~ Substring "&" (errorMessage_of v) ->
   character_data (errorMessage_of v ++ error_tail)
   = Some (errorMessage_of v)) /\
  (instanceof_Error v = false ->
   character_data (errorMessage_of v ++ error_tail)
   = Some (errorMessage_of v)).
Proof.
  intros H. cbv zeta. unfold exec.
  rewrite (runCode_rejected transform sourceText v w H).
  cbn [snd after_compile output trace].
  split; [now intros name m ->|].
  split; [intros Hv; unfold errorMessage_of; now rewrite Hv|].
  split.
  { apply in_or_app. right. unfold rejected_trace. cbn [In]. auto. }
  split.
  { exists (lines [""; "        <!DOCTYPE html>"; "        <html>";
                   "          <body>"; "            "]).
    exists (lines [""; "              <h3>Error:</h3>"; "              "]).
    exists (nl ++ "            ").
    exists (lines [""; "          </body>"; "        </html>"; "      "]).
    split; [|by_evaluation].
    rewrite errorDocument_split.
    change error_head with
      (lines [""; "        <!DOCTYPE html>"; "        <html>";
              "          <body>"; "            "]
       ++ error_style_open
       ++ lines [""; "              <h3>Error:</h3>"; "              "]
       ++ "<pre>").
    change error_tail with
      ("</pre>" ++ (nl ++ "            ") ++ "</div>"
       ++ lines [""; "          </body>"; "        </html>"; "      "]).
    now rewrite !append_assoc. }
  split; [found|].
  split; [apply errorDocument_split|].
  split.
  { exists (lines [""; "        <!DOCTYPE html>"; "        <html>";
                   "          <body>";
                   "            " ++ error_style_open;
                   "              <h3>Error:</h3>"; "              "]).
    by_evaluation. }
  assert (Ht : exists t, error_tail = String "<"%char t)
    by (eexists; by_evaluation).
  split; [eexists; by_evaluation|].
  destruct Ht as [t Ht]. rewrite Ht. split.
  - intros Hl Ha. now apply character_data_plain.
  - intros Hv. unfold errorMessage_of. rewrite Hv.
    apply character_data_plain; not_found.
Qed.

(** C9.  The compile procedure is total: on every source text, the empty
    one included, it ends normally having published exactly one
    document, which is not empty and is either the success document of
    the engine's result or the error document of the thrown value.  The
    editor's change handler stores [value || '']: the stored text is the
    value, or the empty text when the value is undefined. *)
Theorem compile_total (sourceText : string) (w : World) :
  let w' := exec (runCode transform sourceText) w in
  fst (runCode transform sourceText w) = Normal tt /\
  published (trace w') = (published (trace w) ++ [output w'])%list /\
  output w' <> EmptyString /\
  ((exists r, transform sourceText babelOptions = Normal r /\
              output w' = iframeContent (Babel.code r)) \/
   (exists v, transform sourceText babelOptions = Throw v /\
              output w' = errorDocument (errorMessage_of v))) /\
  (forall value w0, code (onChange value w0) = or_empty value) /\
  or_empty None = EmptyString /\
  (forall s, or_empty (Some s) = s).
Proof.
  cbv zeta.
  destruct (runCode_exec transform sourceText w)
    as [d [new [He [_ [_ Hp]]]]].
  unfold exec in *.
  destruct (runCode_cases transform sourceText w)
    as [d' [new' [H Hcases]]].
  rewrite H in *. cbn [fst snd] in *.
  assert (Hd : d' = d) by (now apply (f_equal output) in He).
  subst d'. rewrite He. cbn [after_compile output trace].
  split; [reflexivity|].
  split; [now rewrite published_app, Hp|].
  split.
  { destruct Hcases as [[r [_ [-> _]]]|[v [_ [-> _]]]];
      [apply iframeContent_nonempty|apply errorDocument_nonempty]. }
  split.
  { destruct Hcases as [[r [Hr [-> _]]]|[v [Hv [-> _]]]].
    - left. now exists r.
    - right. now exists v. }
  split; [apply code_onChange|].
  split; [reflexivity|]. now intros [|c s].
Qed.

(** C10.  The published document depends on the source text alone: two
    compile procedures on one source text publish the same document,
    whatever the clock, the timers, the earlier output and the trace
    are, and so do two manual triggers on pages that store one text. *)
Theorem compile_deterministic (sourceText : string) (w1 w2 : World) :
  output (exec (runCode transform sourceText) w1) =
  output (exec (runCode transform sourceText) w2) /\
  output (exec (runCode transform sourceText)
               (exec (runCode transform sourceText) w1)) =
  output (exec (runCode transform sourceText) w1) /\
  (code w1 = code w2 -> isCompiling w1 = false ->
   isCompiling w2 = false ->
   output (click transform w1) = output (click transform w2)).
Proof.
  split; [apply runCode_output_independent|].
  split; [apply runCode_output_independent|].
  intros Hc H1 H2.
  rewrite (click_idle transform w1 H1), (click_idle transform w2 H2), Hc.
  apply runCode_output_independent.
Qed.

End Claims.

(** ** The two triggers *)

Section Triggers.

Variable transform : Babel.engine.

(** C2 (as amended).  Take any reachable state of the page and a burst of
    updates, each storing a text other than the one stored before it and
    each but the first less than 1000 ms after the one before, followed
    by a quiet period of 1000 ms or more.  Then exactly one compile
    procedure runs from the first update on, and it runs on the text of
    the last update; no timer is left pending and the status is Idle.
    Each such update cancels the pending timer and arms a fresh one,
    1000 ms ahead, for the text it stores. *)
Theorem debounce_runs_one_compile_on_last_text
        (w : World) (v0 : option string)
        (rest : list (Z * option string)) (quiet : Z) :
  reachable transform w ->
  all_change (code w) (v0 :: map snd rest) ->
  Forall (fun dv => 0 <= fst dv < 1000) rest ->
  1000 <= quiet ->
  let w' := run transform (burst v0 rest quiet) w in
  compiled (trace w') =
    (compiled (trace w)
     ++ [last_text (code w) (v0 :: map snd rest)])%list /\
  code w' = last_text (code w) (v0 :: map snd rest) /\
  timers w' = [] /\
  isCompiling w' = false /\
  timers (onChange v0 w) =
    [mkTimer (next_handle w) (now w + 1000) (or_empty v0)].
Proof.
  intros Hreach [Hne Hch] Hgap Hq. cbv zeta.
  pose proof (reachable_settled transform w Hreach) as Hw.
  destruct (onChange_changed v0 w Hw Hne)
    as [Hs [Hcode [Htim [Hnow [new [Htr [_ Hcomp]]]]]]].
  unfold burst. cbn [run fold_left step last_text].
  change (fold_left (fun w0 e => step transform e w0) ?es ?w0)
    with (run transform es w0).
  pose proof (burst_tail transform rest quiet (onChange v0 w) _
                Hs Htim) as H.
  cbn [deadline captured_code] in H.
  rewrite Hnow, Hcode, Htr, compiled_app, Hcomp, app_nil_r in H.
  specialize (H eq_refl eq_refl Hch Hgap Hq). cbv zeta in H.
  destruct H as [H1 [H2 [H3 H4]]].
  now repeat split.
Qed.

(** C4 (as amended).  The manual trigger does nothing while the status is
    Compiling.  From Idle it runs one compile procedure on the stored
    text and the status is Idle when it returns; in every reachable
    state the status is Idle, so two triggers in immediate succession
    run two compile procedures, one after the other. *)
Theorem manual_trigger_guard (w : World) :
  (isCompiling w = true -> click transform w = w) /\
  (isCompiling w = false ->
   isCompiling (click transform w) = false /\
   compiled (trace (click transform w)) =
     (compiled (trace w) ++ [code w])%list /\
   compiled (trace (click transform (click transform w))) =
     (compiled (trace w) ++ [code w; code w])%list) /\
  (reachable transform w -> isCompiling w = false).
Proof.
  split; [|split].
  - intros H. unfold click, render. cbn [compile_button disabled].
    now rewrite H.
  - intros H. rewrite (click_idle transform w H).
    destruct (runCode_exec transform (code w) w)
      as [d [new [-> [Hc _]]]].
    split; [reflexivity|]. split.
    + cbn [after_compile trace]. now rewrite compiled_app, Hc.
    + rewrite click_idle by reflexivity.
      destruct (runCode_exec transform
                  (code (after_compile d new w)) (after_compile d new w))
        as [d2 [new2 [-> [Hc2 _]]]].
      cbn [after_compile trace code] in *.
      now rewrite !compiled_app, Hc, Hc2, <- app_assoc.
  - intros H. apply (reachable_settled transform w H).
Qed.

End Triggers.

(** ** Examples *)

(** C1, an instance: the stand-in engine rejects an unfinished function
    and the error document is published. *)
Lemma rejected_source_example :
  sample_engine "function App() {" babelOptions =
    Throw (JsError "SyntaxError"
             ("unknown: Unexpected token (1:0)" ++ nl ++ nl
              ++ "> 1 | function App() {")) /\
  Substring "Error:"
    (output (exec (runCode sample_engine "function App() {") mount)).
Proof.
  split; [reflexivity|].
  pose proof (rejected_source_yields_error_document sample_engine
                "function App() {" mount _ eq_refl) as H.
  cbv zeta in H. exact (proj1 (proj2 (proj2 (proj2 H)))).
Defined.

(** C1 as first stated fails: the stand-in engine rejects a text made of
    a loader element and an unmatched brace with a message that quotes the
    text, and the error document then holds that loader element, which is
    part of the runtime bootstrap of every success document. *)
Lemma error_document_can_hold_bootstrap_script :
  (exists m,
      sample_engine quoting_source babelOptions
      = Throw (JsError "SyntaxError" m)) /\
  In babel_script bootstrap_scripts /\
  Substring babel_script (iframeContent EmptyString) /\
  Substring babel_script
    (output (exec (runCode sample_engine quoting_source) mount)).
Proof.
  split; [eexists; by_evaluation|].
  split; [cbn; auto|].
  split; found.
Qed.

(** C2, an instance: three updates 999 ms and 500 ms apart, the last one
    undefined, then a quiet second: one compile procedure, on the empty
    text. *)
Lemma debounce_example :
  compiled
    (trace (run sample_engine
              (burst (Some "a") [(999, Some "ab"); (500, None)] 1000)
              mount))
  = [EmptyString].
Proof.
  refine (proj1 (debounce_runs_one_compile_on_last_text sample_engine mount
                   (Some "a") [(999, Some "ab"); (500, None)] 1000
                   _ _ _ _)).
  - constructor.
  - cbn. repeat split; discriminate.
  - repeat constructor; cbn; lia.
  - lia.
Defined.

(** C2 as first stated fails: on the idle page an update that stores the
    text already stored arms no timer, and no compile procedure runs in
    the quiet second after it; and 900 ms after mounting such an update
    leaves the first timer pending with its deadline at 1000 ms. *)
Lemma same_text_update_runs_no_compile :
  reachable sample_engine idle_page /\
  code idle_page = defaultCode /\
  timers idle_page = [] /\
  timers (onChange (Some defaultCode) idle_page) = [] /\
  compiled
    (trace (run sample_engine (burst (Some defaultCode) [] 1000) idle_page))
  = compiled (trace idle_page) /\
  timers (run sample_engine [Elapse 900; Edit (Some defaultCode)] mount)
  = [mkTimer 1 1000 defaultCode].
Proof.
  split.
  { apply (reachable_step sample_engine mount (Elapse 1000)). constructor. }
  repeat split; by_evaluation.
Qed.

(** C4 as first stated fails: two clicks in immediate succession on the
    mounted page, whose status is Idle, run two compile procedures. *)
Lemma two_clicks_run_two_compiles :
  isCompiling mount = false /\
  isCompiling (run sample_engine [Click] mount) = false /\
  compiled (trace (run sample_engine [Click; Click] mount))
  = [defaultCode; defaultCode].
Proof.
  repeat split; by_evaluation.
Qed.


(** C8, an instance: an engine that throws a string, which is no [Error];
    the fallback message is shown. *)
Lemma caught_value_example :
  rude_engine defaultCode babelOptions = Throw (JsString "boom") /\
  errorMessage_of (JsString "boom") = "An unknown error occurred".
Proof.
  split; [reflexivity|].
  pose proof (caught_value_is_shown_preformatted_in_red rude_engine
                defaultCode mount (JsString "boom") eq_refl) as H.
  cbv zeta in H. exact (proj1 (proj2 H) eq_refl).
Defined.



(** C8 as first stated fails: the stand-in engine rejects a text that
    begins with [</pre></div>] with a message that quotes it; in the
    published document the character data of the [pre] element is only
    the start of the message, and the two end tags of the message close
    the [pre] and the red block before the rest of it. *)
Lemma quoted_markup_ends_the_pre :
  sample_engine markup_source babelOptions
  = Throw (JsError "SyntaxError"
             ("unknown: Unexpected token (1:0)" ++ nl ++ nl ++ "> 1 | "
              ++ "</pre></div>{")) /\
  output (exec (runCode sample_engine markup_source) mount)
  = error_head
      ++ ("unknown: Unexpected token (1:0)" ++ nl ++ nl ++ "> 1 | "
          ++ "</pre></div>{")
      ++ error_tail /\
  character_data
    (("unknown: Unexpected token (1:0)" ++ nl ++ nl ++ "> 1 | "
      ++ "</pre></div>{") ++ error_tail)
  = Some ("unknown: Unexpected token (1:0)" ++ nl ++ nl ++ "> 1 | ") /\
  "unknown: Unexpected token (1:0)" ++ nl ++ nl ++ "> 1 | "
  <> "unknown: Unexpected token (1:0)" ++ nl ++ nl ++ "> 1 | "
     ++ "</pre></div>{".
Proof.
  split; [reflexivity|]. split; [by_evaluation|].
  split; [by_evaluation|].
  intros H. vm_compute in H. discriminate.
Qed.

(** * Further properties of the page *)

Section Preview.

Variable transform : Babel.engine.

Lemma output_runCode (sourceText : string) (w : World) :
  output (exec (runCode transform sourceText) w)
  = document_of transform sourceText.
Proof.
  unfold exec, document_of.
  destruct (runCode_cases transform sourceText w)
    as [d [new [H [[r [Hr [-> _]]]|[v [Hv [-> _]]]]]]];
    rewrite H; [rewrite Hr|rewrite Hv]; reflexivity.
Qed.

Lemma mount_debounced : debounced transform mount.
Proof.
  split; [apply mount_settled|]. split; [cbn; lia|].
  split; [|discriminate].
  repeat constructor; cbn; lia.
Qed.

(** A table of at most one timer is empty or a singleton. *)
Lemma at_most_one {A} (l : list A) :
  (length l <= 1)%nat -> l = [] \/ exists x, l = [x].
Proof.
  destruct l as [|x [|y l]]; cbn; intros H;
    [now left|right; now exists x|lia].
Qed.

Lemma onChange_debounced (value : option string) (w : World) :
  debounced transform w -> debounced transform (onChange value w).
Proof.
  intros [Hs [Hlen [Htime Hfresh]]].
  destruct (String.eqb_spec (or_empty value) (code w)) as [He|Hne].
  - rewrite (onChange_same _ _ He).
    split; [exact Hs|]. split; [exact Hlen|]. split; [exact Htime|].
    exact Hfresh.
  - destruct (onChange_changed value w Hs Hne)
      as [Hs' [_ [Htim [Hnow _]]]].
    split; [exact Hs'|]. rewrite Htim.
    split; [cbn; lia|]. split; [|discriminate].
    repeat constructor; unfold in_time; cbn; rewrite Hnow; lia.
Qed.

Lemma click_debounced (w : World) :
  debounced transform w -> debounced transform (click transform w).
Proof.
  intros [Hs [Hlen [Htime Hfresh]]].
  destruct (click_settled transform w Hs) as [Hs' _].
  rewrite (click_idle transform w (proj1 Hs)) in *.
  pose proof (output_runCode (code w) w) as Hout.
  destruct (runCode_exec transform (code w) w) as [d [new [He _]]].
  rewrite He in *. cbn in Hout.
  split; [exact Hs'|]. split; [exact Hlen|]. split; [exact Htime|].
  intros _. exact Hout.
Qed.

(** The only pending timer fires: the table is empty and the preview shows
    the document of the text the timer captured. *)
Lemma elapse_fires_output (ms : Z) (w : World) (t : Timer) :
  timers w = [t] -> deadline t <= now w + Z.max 0 ms ->
  timers (elapse transform ms w) = [] /\
  now (elapse transform ms w) = now w + Z.max 0 ms /\
  output (elapse transform ms w) = document_of transform (captured_code t).
Proof.
  intros Ht Hd. unfold elapse. rewrite Ht. cbn [length fire_due].
  rewrite Ht. cbn [next_due].
  destruct (Z.leb_spec (deadline t) (now w + Z.max 0 ms)); [|lia].
  unfold fire. rewrite Ht. cbn [filter]. rewrite Nat.eqb_refl.
  cbn [negb with_now timers now output].
  split; [|split; [reflexivity|apply output_runCode]].
  now destruct (runCode_frame transform (captured_code t)
                  (with_timers []
                     (with_now (Z.max (now w) (deadline t)) w)))
    as [_ [-> _]].
Qed.

Lemma elapse_debounced (ms : Z) (w : World) :
  debounced transform w -> debounced transform (elapse transform ms w).
Proof.
  intros [Hs [Hlen [Htime Hfresh]]].
  destruct (elapse_settled transform ms w Hs) as [Hs' [Hc _]].
  split; [exact Hs'|].
  destruct (at_most_one _ Hlen) as [Hnil|[t Ht]].
  - assert (He : elapse transform ms w = with_now (now w + Z.max 0 ms) w).
    { unfold elapse. rewrite Hnil. reflexivity. }
    rewrite He. cbn. rewrite Hnil.
    split; [cbn; lia|]. split; [constructor|].
    intros _. now apply Hfresh.
  - rewrite Ht in Htime. apply Forall_cons_iff in Htime as [Hin _].
    unfold in_time in Hin.
    destruct (Z_lt_le_dec (now w + Z.max 0 ms) (deadline t)) as [Hq|Hd].
    + rewrite (elapse_quiet transform ms w t Ht Hq). cbn. rewrite Ht.
      split; [cbn; lia|]. split; [|discriminate].
      repeat constructor; unfold in_time; cbn; lia.
    + destruct (elapse_fires_output ms w t Ht Hd) as [Hnil [_ Hout]].
      rewrite Hnil. split; [cbn; lia|]. split; [constructor|].
      intros _. rewrite Hout, Hc.
      destruct Hs as [_ Hown]. rewrite Ht in Hown.
      apply Forall_cons_iff in Hown as [[_ ->] _]. reflexivity.
Qed.

Lemma reachable_debounced (w : World) :
  reachable transform w -> debounced transform w.
Proof.
  induction 1 as [|w e _ IH]; [apply mount_debounced|].
  destruct e; cbn [step];
    [apply onChange_debounced|apply click_debounced|apply elapse_debounced];
    exact IH.
Qed.

(** X1.  In every reachable state of the page at most one timer is
    pending; it was armed by the effect run that now holds its handle, on
    the stored text, and it is due after the present and at most 1000 ms
    from it. *)
Theorem pending_timer_invariant (w : World) :
  reachable transform w ->
  (length (timers w) <= 1)%nat /\
  Forall (fun t =>
            debounceTimer w = Some (handle t) /\
            captured_code t = code w /\
            now w < deadline t <= now w + 1000)
         (timers w).
Proof.
  intros H. destruct (reachable_debounced w H) as [[_ Hown] [Hlen [Ht _]]].
  split; [exact Hlen|].
  rewrite Forall_forall in *. intros t Hin.
  destruct (Hown t Hin) as [H1 H2]. specialize (Ht t Hin).
  unfold in_time in Ht. now repeat split.
Qed.

(** X2.  From every reachable state, once 1000 ms or more pass without
    input no timer is pending and the preview shows the document of the
    stored text: the success document of the engine's result or the error
    document of what it threw. *)
Theorem quiet_second_refreshes_preview (w : World) (ms : Z) :
  reachable transform w ->
  1000 <= ms ->
  timers (elapse transform ms w) = [] /\
  code (elapse transform ms w) = code w /\
  output (elapse transform ms w) = document_of transform (code w).
Proof.
  intros H Hms.
  destruct (reachable_debounced w H) as [Hs [Hlen [Htime Hfresh]]].
  destruct (elapse_settled transform ms w Hs) as [_ [Hc _]].
  destruct (at_most_one _ Hlen) as [Hnil|[t Ht]].
  - assert (He : elapse transform ms w = with_now (now w + Z.max 0 ms) w).
    { unfold elapse. rewrite Hnil. reflexivity. }
    rewrite He. cbn. split; [exact Hnil|]. split; [reflexivity|].
    now apply Hfresh.
  - rewrite Ht in Htime. apply Forall_cons_iff in Htime as [Hin _].
    unfold in_time in Hin.
    destruct (elapse_fires_output ms w t Ht ltac:(lia)) as [Hnil [_ Hout]].
    split; [exact Hnil|]. split; [exact Hc|]. rewrite Hout.
    destruct Hs as [_ Hown]. rewrite Ht in Hown.
    apply Forall_cons_iff in Hown as [[_ ->] _]. reflexivity.
Qed.

(** X3.  The manual trigger does not cancel the pending timer: in a
    reachable state with a timer pending, a click compiles the stored text
    and leaves the timer in the table, and when the timer fires the same
    text is compiled again and the same document is published a second
    time. *)
Theorem click_leaves_timer_pending (w : World) (t : Timer) (ms : Z) :
  reachable transform w ->
  timers w = [t] ->
  1000 <= ms ->
  timers (click transform w) = [t] /\
  compiled (trace (run transform [Click; Elapse ms] w)) =
    (compiled (trace w) ++ [code w; code w])%list /\
  published (trace (run transform [Click; Elapse ms] w)) =
    (published (trace w)
     ++ [document_of transform (code w);
         document_of transform (code w)])%list.
Proof.
  intros H Ht Hms.
  destruct (reachable_debounced w H) as [Hs [_ [Htime _]]].
  rewrite Ht in Htime. apply Forall_cons_iff in Htime as [Hin _].
  unfold in_time in Hin.
  assert (Hc : captured_code t = code w).
  { destruct Hs as [_ Hown]. rewrite Ht in Hown.
    apply Forall_cons_iff in Hown as [[_ Hc] _]. exact Hc. }
  cbn [run fold_left step].
  rewrite (click_idle transform w (proj1 Hs)).
  pose proof (output_runCode (code w) w) as Hout1.
  destruct (runCode_exec transform (code w) w)
    as [d1 [n1 [He1 [Hc1 [_ Hp1]]]]].
  rewrite He1 in Hout1 |- *.
  cbn [after_compile output] in Hout1. subst d1.
  set (w1 := after_compile (document_of transform (code w)) n1 w).
  assert (Ht1 : timers w1 = [t]) by exact Ht.
  split; [exact Ht1|].
  destruct (elapse_fires transform ms w1 t Ht1 ltac:(cbn; lia))
    as [d2 [n2 [He [Hc2 Hp2]]]].
  destruct (elapse_fires_output ms w1 t Ht1 ltac:(cbn; lia))
    as [_ [_ Hout2]].
  rewrite He in Hout2 |- *. cbn [with_now after_compile output] in Hout2.
  subst d2. cbn [with_now after_compile trace with_timers w1].
  rewrite !compiled_app, !published_app, Hc1, Hc2, Hp1, Hp2, Hc.
  now rewrite <- !app_assoc.
Qed.

(** X4.  While the user types the preview lags: an update that changes the
    stored text, followed by less than 1000 ms without input, leaves the
    published document and the list of compiled texts as they were, though
    the stored text is the new one. *)
Theorem preview_lags_while_typing
        (w : World) (value : option string) (ms : Z) :
  reachable transform w ->
  or_empty value <> code w ->
  0 <= ms < 1000 ->
  let w' := run transform [Edit value; Elapse ms] w in
  code w' = or_empty value /\
  output w' = output w /\
  compiled (trace w') = compiled (trace w) /\
  published (trace w') = published (trace w).
Proof.
  intros H Hne Hms. cbv zeta. cbn [run fold_left step].
  pose proof (reachable_settled transform w H) as Hs.
  destruct (onChange_changed value w Hs Hne)
    as [_ [Hcode [Htim [Hnow _]]]].
  rewrite (elapse_quiet transform ms (onChange value w) _ Htim)
    by (cbn; rewrite Hnow; lia).
  cbn [with_now code output trace].
  split; [exact Hcode|].
  unfold onChange. cbv zeta.
  destruct (String.eqb_spec (or_empty value) (code w)) as [|_];
    [contradiction|].
  unfold effect_body, effect_cleanup, setTimeout_runCode, clearTimeout,
    exec, setCode.
  cbn. destruct (debounceTimer w); cbn;
    rewrite ?compiled_app, ?published_app; cbn;
    rewrite ?app_nil_r; repeat split.
Qed.

End Preview.

(** X1, an instance: 300 ms after an update on the mounted page. *)
Lemma pending_timer_example :
  timers (run sample_engine [Edit (Some "a"); Elapse 300] mount)
  = [mkTimer 2 1000 "a"] /\
  (length (timers (run sample_engine [Edit (Some "a"); Elapse 300] mount))
   <= 1)%nat.
Proof.
  split; [reflexivity|].
  refine (proj1 (pending_timer_invariant sample_engine
                   (run sample_engine [Edit (Some "a"); Elapse 300] mount)
                   _)).
  apply (reachable_step sample_engine _ (Elapse 300)).
  apply (reachable_step sample_engine _ (Edit (Some "a"))).
  constructor.
Defined.

(** X2, an instance: a rejected text, typed and left alone for a second. *)
Lemma quiet_second_example :
  output (elapse sample_engine 1000
            (onChange (Some "function App() {") mount))
  = errorDocument ("unknown: Unexpected token (1:0)" ++ nl ++ nl
                   ++ "> 1 | function App() {").
Proof.
  refine (proj2 (proj2 (quiet_second_refreshes_preview sample_engine
                          (onChange (Some "function App() {") mount)
                          1000 _ _))).
  - apply (reachable_step sample_engine mount
             (Edit (Some "function App() {"))).
    constructor.
  - lia.
Defined.

(** X3, an instance: a click on the freshly mounted page, then a second. *)
Lemma click_then_timer_example :
  compiled (trace (run sample_engine [Click; Elapse 1000] mount))
  = [defaultCode; defaultCode].
Proof.
  refine (proj1 (proj2 (click_leaves_timer_pending sample_engine mount
                          (mkTimer 1 1000 defaultCode) 1000 _ _ _))).
  - constructor.
  - reflexivity.
  - lia.
Defined.

(** X4, an instance: half a second after the first keystroke the preview
    is still empty. *)
Lemma preview_lag_example :
  output (run sample_engine [Edit (Some "a"); Elapse 500] mount)
  = EmptyString.
Proof.
  refine (proj1 (proj2 (preview_lags_while_typing sample_engine mount
                          (Some "a") 500 _ _ _))).
  - constructor.
  - discriminate.
  - lia.
Defined.


(** * Properties of the language-model service *)

Module AIFacts.
Import AI.

Section Retry.

Variable create : nat -> Req.t -> Settled Resp.t.
Variable this : AIService.
Variable request : Req.t.

Lemma delays_from_0 (failures : nat) : delays_from 0 failures = backoff failures.
Proof. reflexivity. Qed.

Lemma delays_from_S (attempts : Z) (failures : nat) :
  delays_from attempts (S failures) =
  (2 ^ (attempts + 1) * 1000 :: delays_from (attempts + 1) failures)%list.
Proof.
  unfold delays_from. cbn [seq map]. f_equal.
  rewrite <- seq_shift, map_map. apply map_ext. intros i.
  do 2 f_equal. lia.
Qed.

(** The loop ends within its fuel; it makes [n] calls, all but the last
    failed, with a delay between each two. *)
Lemma attempt_loop_spec (fuel : nat) :
  forall (attempts : Z) (net : Net),
    0 <= attempts ->
    (Z.to_nat (maxRetries this - attempts) <= fuel)%nat ->
    exists r net' n,
      attempt_loop create fuel this request attempts net = Some (r, net') /\
      requests net' = (requests net ++ repeat request n)%list /\
      Z.of_nat n <= Z.max 0 (maxRetries this - attempts) /\
      delays net' = (delays net ++ delays_from attempts (n - 1))%list /\
      tokens net' = tokens net /\
      (maxRetries this <= attempts ->
       n = 0%nat /\ r = Raised max_retries_exceeded) /\
      (attempts < maxRetries this ->
       (1 <= n)%nat /\
       (forall i, (i < n - 1)%nat ->
                  exists e,
                    try_create create (length (requests net) + i) request
                    = Rejected e) /\
       closes this
              (try_create create (length (requests net) + (n - 1)) request)
              r (attempts + Z.of_nat n)).
Proof.
  induction fuel as [|fuel IH]; intros attempts net Ha Hfuel;
    cbn [attempt_loop];
    destruct (Z.ltb_spec attempts (maxRetries this)) as [Hlt|Hge].
  - lia.
  - exists (Raised max_retries_exceeded), net, 0%nat.
    cbn [repeat]. rewrite !app_nil_r.
    repeat split; try lia.
  - destruct (try_create create (length (requests net)) request)
      as [response|error] eqn:Htry.
    + exists (Returned response), (send request net), 1%nat.
      cbn [send requests delays tokens repeat Nat.sub delays_from seq map].
      rewrite app_nil_r. repeat split; try lia.
      rewrite Nat.add_0_r, Htry. reflexivity.
    + destruct (Z.eqb_spec (attempts + 1) (maxRetries this)) as [Heq|Hne].
      * exists (Raised (rethrow "Failed to create chat completion" error)),
          (send request net), 1%nat.
        cbn [send requests delays tokens repeat Nat.sub delays_from seq map].
        rewrite app_nil_r. repeat split; try lia.
        rewrite Nat.add_0_r, Htry. split; [reflexivity|lia].
      * destruct (IH (attempts + 1)
                     (sleep (2 ^ (attempts + 1) * 1000) (send request net))
                     ltac:(lia) ltac:(lia))
          as [r [net' [n [Hrun [Hreq [Hn [Hdel [Htok [_ Hlast]]]]]]]]].
        destruct (Hlast ltac:(lia)) as [Hn1 [Hfail Hclose]].
        exists r, net', (S n).
        cbn [sleep send requests delays tokens] in *.
        split; [exact Hrun|].
        split; [rewrite Hreq, <- app_assoc; reflexivity|].
        split; [lia|].
        split.
        { rewrite Hdel, <- app_assoc. f_equal.
          replace (S n - 1)%nat with (S (n - 1)) by lia.
          now rewrite delays_from_S. }
        split; [exact Htok|].
        split; [lia|]. intros _.
        split; [lia|]. split.
        -- intros i Hi. destruct i as [|i].
           ++ exists error. now rewrite Nat.add_0_r.
           ++ destruct (Hfail i ltac:(lia)) as [e He]. exists e.
              rewrite length_app in He. cbn [length] in He.
              now replace (length (requests net) + S i)%nat
                with (length (requests net) + 1 + i)%nat by lia.
        -- rewrite length_app in Hclose. cbn [length] in Hclose.
           replace (length (requests net) + (S n - 1))%nat
             with (length (requests net) + 1 + (n - 1))%nat by lia.
           replace (attempts + Z.of_nat (S n))
             with (attempts + 1 + Z.of_nat n) by lia.
           exact Hclose.
  - exists (Raised max_retries_exceeded), net, 0%nat.
    cbn [repeat]. rewrite !app_nil_r.
    repeat split; try lia.
Qed.



End Retry.

(** The whole method: the loop from [attempts = 0] with fuel enough. *)
Lemma createChatCompletion_spec
      (create : nat -> Req.t -> Settled Resp.t) (this : AIService)
      (messages : list MessageParam)
      (functions : option (list FunctionDefinition)) (net : Net) :
  let request := completion_request this messages functions in
  exists r net' n,
    createChatCompletion create this messages functions net
    = Some (r, net') /\
    requests net' = (requests net ++ repeat request n)%list /\
    Z.of_nat n <= Z.max 0 (maxRetries this) /\
    delays net' = (delays net ++ backoff (n - 1))%list /\
    tokens net' = tokens net /\
    (maxRetries this <= 0 ->
     n = 0%nat /\ r = Raised max_retries_exceeded) /\
    (0 < maxRetries this ->
     (1 <= n)%nat /\
     (forall i, (i < n - 1)%nat ->
                exists e,
                  try_create create (length (requests net) + i) request
                  = Rejected e) /\
     closes this
            (try_create create (length (requests net) + (n - 1)) request)
            r (Z.of_nat n)).
Proof.
  cbv zeta. unfold createChatCompletion.
  destruct (attempt_loop_spec create this
              (completion_request this messages functions)
              (Z.to_nat (maxRetries this)) 0 net
              ltac:(lia) ltac:(lia))
    as [r [net' [n H]]].
  exists r, net', n. rewrite Z.sub_0_r, delays_from_0 in H. exact H.
Qed.



Section AnyCount.

Variable create : nat -> Req.t -> Settled Resp.t.
Variable request : Req.t.

Lemma below_finite (attempts : Z) (q : QArith_base.Q) :
  below attempts (Finite q) = true <->
  QArith_base.Qlt (QArith_base.inject_Z attempts) q.
Proof.
  unfold below. rewrite negb_true_iff. split.
  - intros H. apply QArith_base.Qnot_le_lt. intros Hle.
    apply QArith_base.Qle_bool_iff in Hle. congruence.
  - intros H. apply Bool.not_true_iff_false. intros Hle.
    apply QArith_base.Qle_bool_iff in Hle.
    now apply (QArith_base.Qlt_not_le _ _ H).
Qed.

Lemma same_finite (attempts : Z) (q : QArith_base.Q) :
  same attempts (Finite q) = true <->
  QArith_base.Qeq (QArith_base.inject_Z attempts) q.
Proof. apply QArith_base.Qeq_bool_iff. Qed.

Lemma below_ceiling (attempts : Z) (q : QArith_base.Q) :
  QArith_base.Qlt (QArith_base.inject_Z attempts) q ->
  attempts < Qround.Qceiling q.
Proof.
  intros H. rewrite QArith_base.Zlt_Qlt.
  eapply QArith_base.Qlt_le_trans; [exact H|apply Qround.Qle_ceiling].
Qed.

Lemma ceiling_le (b : Z) (q : QArith_base.Q) :
  QArith_base.Qle q (QArith_base.inject_Z b) -> Qround.Qceiling q <= b.
Proof.
  intros H. rewrite <- (Qround.Qceiling_Z b).
  now apply Qround.Qceiling_resp_le.
Qed.

(** When the test of the loop fails, it ends at once, whatever the
    fuel. *)
Lemma attempt_loop_any_exit (fuel : nat) (m : Number) (attempts : Z)
      (net : Net) :
  below attempts m = false ->
  attempt_loop_any create fuel m request attempts net
  = Some (Raised max_retries_exceeded, net).
Proof.
  intros H. destruct fuel; cbn [attempt_loop_any]; now rewrite H.
Qed.

(** The loop for a finite retry count, from a value of [attempts] below
    it. *)
Lemma attempt_loop_any_spec (q : QArith_base.Q) (fuel : nat) :
  forall (attempts : Z) (net : Net),
    (Z.to_nat (Qround.Qceiling q - attempts) <= fuel)%nat ->
    QArith_base.Qlt (QArith_base.inject_Z attempts) q ->
    exists r net' n d,
      attempt_loop_any create fuel (Finite q) request attempts net
      = Some (r, net') /\
      requests net' = (requests net ++ repeat request n)%list /\
      (1 <= n)%nat /\
      attempts + Z.of_nat n <= Qround.Qceiling q /\
      delays net' = (delays net ++ delays_from attempts d)%list /\
      tokens net' = tokens net /\
      (forall i, (i < n - 1)%nat ->
                 exists e,
                   try_create create (length (requests net) + i) request
                   = Rejected e) /\
      ending (try_create create (length (requests net) + (n - 1)) request)
             q (attempts + Z.of_nat n) r n d.
Proof.
  induction fuel as [|fuel IH]; intros attempts net Hfuel Hlt;
    pose proof (below_ceiling _ _ Hlt) as Hc; [lia|].
  cbn [attempt_loop_any]. rewrite (proj2 (below_finite _ _) Hlt).
  destruct (try_create create (length (requests net)) request)
    as [response|error] eqn:Htry.
  - exists (Returned response), (send request net), 1%nat, 0%nat.
    cbn [send requests delays tokens repeat delays_from seq map Nat.sub].
    rewrite app_nil_r, Nat.add_0_r, Htry.
    repeat split; try lia; try (intros; lia).
  - destruct (same (attempts + 1) (Finite q)) eqn:Hsame.
    + exists (Raised (rethrow "Failed to create chat completion" error)),
        (send request net), 1%nat, 0%nat.
      cbn [send requests delays tokens repeat delays_from seq map Nat.sub].
      rewrite app_nil_r, Nat.add_0_r, Htry.
      repeat split; try lia; try (intros; lia).
      left. repeat split. now apply same_finite.
    + assert (Hne : ~ QArith_base.Qeq
                      (QArith_base.inject_Z (attempts + 1)) q).
      { intros H. apply (proj2 (same_finite _ _)) in H. congruence. }
      destruct (below (attempts + 1) (Finite q)) eqn:Hb.
      * apply below_finite in Hb.
        destruct (IH (attempts + 1)
                     (sleep (2 ^ (attempts + 1) * 1000) (send request net))
                     ltac:(lia) Hb)
          as [r [net' [n [d [Hrun [Hreq [Hn [Hle [Hdel [Htok [Hfail Hend]]]]]]]]]]].
        exists r, net', (S n), (S d).
        cbn [sleep send requests delays tokens] in *.
        split; [exact Hrun|].
        split; [rewrite Hreq, <- app_assoc; reflexivity|].
        split; [lia|]. split; [lia|].
        split; [rewrite Hdel, <- app_assoc, delays_from_S; reflexivity|].
        split; [exact Htok|]. split.
        -- intros i Hi. destruct i as [|i].
           ++ exists error. now rewrite Nat.add_0_r.
           ++ destruct (Hfail i ltac:(lia)) as [e He]. exists e.
              rewrite length_app in He. cbn [length] in He.
              now replace (length (requests net) + S i)%nat
                with (length (requests net) + 1 + i)%nat by lia.
        -- rewrite length_app in Hend. cbn [length] in Hend.
           replace (length (requests net) + (S n - 1))%nat
             with (length (requests net) + 1 + (n - 1))%nat by lia.
           replace (attempts + Z.of_nat (S n))
             with (attempts + 1 + Z.of_nat n) by lia.
           unfold ending in *.
           destruct (try_create create
                       (length (requests net) + 1 + (n - 1)) request).
           ++ destruct Hend as [-> ->]. split; [reflexivity|lia].
           ++ destruct Hend as [[H1 [-> ->]]|[H1 [H2 [-> ->]]]].
              ** left. repeat split; [exact H1|lia].
              ** right. now repeat split.
      * rewrite (attempt_loop_any_exit fuel (Finite q) (attempts + 1) _ Hb).
        exists (Raised max_retries_exceeded),
          (sleep (2 ^ (attempts + 1) * 1000) (send request net)),
          1%nat, 1%nat.
        cbn [sleep send requests delays tokens repeat delays_from seq map
             Nat.sub].
        rewrite Nat.add_0_r, Htry.
        repeat split; try lia; try (intros; lia).
        right. repeat split; [exact Hne| ].
        intros H. apply (proj2 (below_finite _ _)) in H.
        change (Z.of_nat 1) with 1 in H. congruence.
Qed.

(** The loop for an integer retry count is the loop for any count at that
    integer. *)
Lemma attempt_loop_integer (this : AIService) (fuel : nat) :
  forall (attempts : Z) (net : Net),
    attempt_loop create fuel this request attempts net =
    attempt_loop_any create fuel
                     (Finite (QArith_base.inject_Z (maxRetries this)))
                     request attempts net.
Proof.
  assert (Hb : forall a,
             below a (Finite (QArith_base.inject_Z (maxRetries this)))
             = (a <? maxRetries this)%Z).
  { intros a. unfold below, QArith_base.Qle_bool. cbn.
    rewrite !Z.mul_1_r. symmetry. apply Z.ltb_antisym. }
  assert (Hs : forall a,
             same a (Finite (QArith_base.inject_Z (maxRetries this)))
             = (a =? maxRetries this)%Z).
  { intros a. unfold same, QArith_base.Qeq_bool. cbn.
    now rewrite !Z.mul_1_r. }
  induction fuel as [|fuel IH]; intros attempts net;
    cbn [attempt_loop attempt_loop_any]; rewrite Hb; [reflexivity|].
  destruct (attempts <? maxRetries this)%Z; [|reflexivity].
  destruct (try_create create (length (requests net)) request);
    [reflexivity|].
  rewrite Hs. destruct (attempts + 1 =? maxRetries this)%Z; [reflexivity|].
  apply IH.
Qed.

End AnyCount.

(** X7.  The retry loop of [createChatCompletion] for a retry count that
    is any number.  A count that is not-a-number, minus infinity, zero or
    negative: nothing is sent and [Max retries exceeded] is thrown.  A
    finite positive count up to 1000 (the counter and the delays are then
    exact doubles): the loop ends after at least one and at most as many
    requests as the count rounded up; the last attempt decides: its
    response is returned, or its error is thrown again when the failures
    equal the count, both with one delay between two requests and none
    after the last; but when the count is no integer and every attempt
    fails, a delay is asked for after the last failure too and
    [Max retries exceeded] is thrown.  An infinite count with a client
    that always fails: the loop does not end, whatever the fuel.  For an
    integer count the loop is the one of [attempt_loop]. *)
Theorem retry_loop_for_any_count
        (create : nat -> Req.t -> Settled Resp.t) (request : Req.t)
        (net : Net) :
  (forall m fuel,
      m = NaN \/ m = MinusInfinity \/
      (exists q, m = Finite q /\
                 QArith_base.Qle q (QArith_base.inject_Z 0)) ->
      attempt_loop_any create fuel m request 0 net
      = Some (Raised max_retries_exceeded, net)) /\
  (forall q,
      QArith_base.Qlt (QArith_base.inject_Z 0) q ->
      QArith_base.Qle q (QArith_base.inject_Z 1000) ->
      exists r net' n d,
        attempt_loop_any create (Z.to_nat (Qround.Qceiling q)) (Finite q)
                         request 0 net
        = Some (r, net') /\
        requests net' = (requests net ++ repeat request n)%list /\
        (1 <= n)%nat /\
        Z.of_nat n <= Qround.Qceiling q /\
        delays net' = (delays net ++ backoff d)%list /\
        tokens net' = tokens net /\
        (forall i, (i < n - 1)%nat ->
                   exists e,
                     try_create create (length (requests net) + i) request
                     = Rejected e) /\
        ending (try_create create (length (requests net) + (n - 1)) request)
               q (Z.of_nat n) r n d /\
        ((forall z, ~ QArith_base.Qeq (QArith_base.inject_Z z) q) ->
         (forall i, (i < Z.to_nat (Qround.Qceiling q))%nat ->
                    exists e,
                      try_create create (length (requests net) + i) request
                      = Rejected e) ->
         Z.of_nat n = Qround.Qceiling q /\ d = n /\
         r = Raised max_retries_exceeded)) /\
  ((forall i, exists e, try_create create i request = Rejected e) ->
   forall fuel,
     attempt_loop_any create fuel PlusInfinity request 0 net = None) /\
  (forall this fuel attempts,
      attempt_loop create fuel this request attempts net =
      attempt_loop_any create fuel
                       (Finite (QArith_base.inject_Z (maxRetries this)))
                       request attempts net).
Proof.
  split; [|split; [|split]].
  - intros m fuel Hm. apply attempt_loop_any_exit.
    destruct Hm as [->|[->|[q [-> Hq]]]]; [reflexivity|reflexivity|].
    apply Bool.not_true_iff_false. intros H. apply below_finite in H.
    now apply (QArith_base.Qlt_not_le _ _ H).
  - intros q Hpos _.
    destruct (attempt_loop_any_spec create request q
                (Z.to_nat (Qround.Qceiling q)) 0 net
                ltac:(rewrite Z.sub_0_r; lia) Hpos)
      as [r [net' [n [d [Hrun [Hreq [Hn [Hle [Hdel [Htok [Hfail Hend]]]]]]]]]]].
    exists r, net', n, d. rewrite delays_from_0 in Hdel.
    cbn [Z.add] in Hend, Hle.
    split; [exact Hrun|]. split; [exact Hreq|]. split; [exact Hn|].
    split; [exact Hle|]. split; [exact Hdel|]. split; [exact Htok|].
    split; [exact Hfail|]. split; [exact Hend|].
    intros Hfrac Hall.
    destruct (Hall (n - 1)%nat ltac:(lia)) as [e He].
    unfold ending in Hend. rewrite He in Hend.
    destruct Hend as [[Heq _]|[Hne [Hnlt [-> ->]]]];
      [now destruct (Hfrac (Z.of_nat n))|].
    split; [|split; reflexivity].
    apply Z.le_antisymm; [exact Hle|]. apply ceiling_le.
    now apply QArith_base.Qnot_lt_le.
  - intros Hall fuel. generalize 0 at 1. generalize net.
    induction fuel as [|fuel IH]; intros net0 a; cbn [attempt_loop_any below];
      [reflexivity|].
    destruct (Hall (length (requests net0))) as [e ->].
    cbn [same]. apply IH.
  - intros this fuel attempts. apply attempt_loop_integer.
Qed.

Lemma falsy_iff (n : Number) :
  falsy n = true <->
  n = NaN \/
  exists q, n = Finite q /\ QArith_base.Qeq q (QArith_base.Qmake 0 1).
Proof.
  destruct n as [|q| |]; cbn [falsy]; split.
  - now left.
  - reflexivity.
  - intros H. right. exists q. split; [reflexivity|].
    now apply QArith_base.Qeq_bool_iff.
  - intros [H|[q' [[= <-] H]]]; [discriminate|].
    now apply QArith_base.Qeq_bool_iff.
  - discriminate.
  - intros [H|[q' [H _]]]; discriminate.
  - discriminate.
  - intros [H|[q' [H _]]]; discriminate.
Qed.

Lemma number_or_truthy (value : option Number) (d : Number) :
  falsy d = false -> falsy (number_or value d) = false.
Proof.
  intros Hd. unfold number_or. destruct value as [n|]; [|exact Hd].
  now destruct (falsy n) eqn:Hn.
Qed.

(** X8.  The constructor keeps the key as it is, and keeps every setting
    that counts as true: a model that is a non-empty text, a retry count
    and a temperature that are neither zero nor not-a-number (a fraction,
    a negative number and an infinity are kept).  A setting that is
    absent or counts as false is replaced: the model by
    [claude-3-opus-20240229], the retry count by 3, the temperature by
    0.7.  So a service that was constructed never holds a setting that
    counts as false. *)
Theorem constructor_replaces_falsy_settings
        (new_Anthropic : string -> Settled unit)
        (config : AIConfig) (this : Any.t) :
  new_AIService new_Anthropic config = Returned this ->
  Any.apiKey this = Config.apiKey config /\
  Any.model this <> EmptyString /\
  falsy (Any.maxRetries this) = false /\
  falsy (Any.temperature this) = false /\
  (forall c s, Config.model config = Some (String c s) ->
               Any.model this = String c s) /\
  (Config.model config = None \/ Config.model config = Some EmptyString ->
   Any.model this = "claude-3-opus-20240229") /\
  (forall n, Config.maxRetries config = Some n -> falsy n = false ->
             Any.maxRetries this = n) /\
  (Config.maxRetries config = None \/
   (exists n, Config.maxRetries config = Some n /\ falsy n = true) ->
   Any.maxRetries this = Finite (QArith_base.Qmake 3 1)) /\
  (forall n, Config.temperature config = Some n -> falsy n = false ->
             Any.temperature this = n) /\
  (Config.temperature config = None \/
   (exists n, Config.temperature config = Some n /\ falsy n = true) ->
   Any.temperature this = Finite (QArith_base.Qmake 7 10)) /\
  (forall n,
      falsy n = true <->
      n = NaN \/
      exists q, n = Finite q /\ QArith_base.Qeq q (QArith_base.Qmake 0 1)).
Proof.
  unfold new_AIService. cbv zeta. cbn [Any.apiKey].
  destruct (new_Anthropic (Config.apiKey config)) as [[]|[e|shown]];
    [|discriminate|discriminate].
  intros [= <-]. cbn [Any.apiKey Any.model Any.maxRetries Any.temperature].
  split; [reflexivity|]. split.
  { unfold string_or. destruct (Config.model config) as [[|c s]|];
      discriminate. }
  split; [now apply number_or_truthy|].
  split; [now apply number_or_truthy|].
  split; [now intros c s ->|].
  split; [now intros [->| ->]|].
  split; [intros n -> Hn; cbn [number_or]; now rewrite Hn|].
  split.
  { intros [->|[n [-> Hn]]]; cbn [number_or]; [reflexivity|].
    now rewrite Hn. }
  split; [intros n -> Hn; cbn [number_or]; now rewrite Hn|].
  split.
  { intros [->|[n [-> Hn]]]; cbn [number_or]; [reflexivity|].
    now rewrite Hn. }
  exact falsy_iff.
Qed.

Lemma to_double_exact (n : Z) :
  Z.abs n <= 2 ^ 53 -> to_double n = Finite (QArith_base.inject_Z n).
Proof.
  intros H. unfold to_double. cbv zeta.
  now rewrite (proj2 (Z.leb_le _ _) H).
Qed.

Lemma to_double_overflow (n : Z) :
  2 ^ 1024 <= n -> to_double n = PlusInfinity.
Proof.
  intros H. unfold to_double. cbv zeta.
  assert (Hpos : 0 < n).
  { apply Z.lt_le_trans with (2 ^ 1024); [|exact H].
    now apply Z.pow_pos_nonneg. }
  rewrite (Z.abs_eq n) by lia.
  assert (Hlog : 1024 <= Z.log2 n).
  { rewrite <- (Z.log2_pow2 1024) by lia. now apply Z.log2_le_mono. }
  destruct (Z.log2_spec n Hpos) as [Hlow _].
  set (L := Z.log2 n) in *.
  set (ulp := 2 ^ (L - 52)).
  assert (Hulp : 0 < ulp) by (apply Z.pow_pos_nonneg; lia).
  assert (Hsplit : 2 ^ L = 2 ^ 52 * ulp).
  { unfold ulp. rewrite <- Z.pow_add_r by lia. f_equal. lia. }
  assert (Hq : 2 ^ 52 <= n / ulp).
  { apply Z.div_le_lower_bound; [exact Hulp|]. rewrite Z.mul_comm. lia. }
  assert (Hbig : 2 ^ 1024 <= 2 ^ L) by (apply Z.pow_le_mono_r; lia).
  assert (H53 : 2 ^ 53 < 2 ^ 1024) by (apply Z.pow_lt_mono_r; lia).
  set (big := 2 ^ 1024) in *. set (small := 2 ^ 53) in *.
  set (half := 2 ^ 52) in *.
  destruct (Z.leb_spec n small) as [Hle|_]; [lia|].
  set (q := n / ulp) in *.
  set (q' := if ((ulp <? 2 * (n mod ulp)) ||
                 ((ulp =? 2 * (n mod ulp)) && Z.odd q))%Z
             then q + 1 else q).
  assert (Hq' : q <= q') by (unfold q'; destruct (_ || _)%bool; lia).
  assert (Hround : big <= q' * ulp).
  { apply Z.le_trans with (half * ulp); [lia|].
    apply Z.mul_le_mono_nonneg_r; lia. }
  rewrite (proj2 (Z.leb_le _ _) Hround).
  now rewrite (proj2 (Z.ltb_lt _ _) Hpos).
Qed.

(** X9.  A reply without a content block, or with an empty list of tool
    calls, is never returned: building the response object throws a
    [TypeError], so the attempt counts as failed like a rejected call
    (and is thrown again with status 500 if it was the last).  A reply
    that is returned carries the text of its first content block and a
    usage whose two counts are 0 when the reply has no usage, and whose
    total is the double nearest to their sum: the sum itself when that
    is at most [2 ^ 53] in size, but [2 ^ 53] for counts that sum to
    [2 ^ 53 + 1], and infinity for counts that sum to [2 ^ 1024] or
    more. *)
Theorem reply_conversion (response : Resp.t) :
  (Resp.content response = [] \/ Resp.tool_calls response = Some [] ->
   exists e,
     to_service_response response = Rejected (ThrownError e) /\
     error_name e = "TypeError" /\
     statusCode (rethrow "Failed to create chat completion" (ThrownError e))
     = Some 500 /\
     forall create n request,
       create n request = Fulfilled response ->
       try_create create n request = Rejected (ThrownError e)) /\
  (forall out,
      to_service_response response = Fulfilled out ->
      exists block rest u,
        Resp.content response = (block :: rest)%list /\
        Out.content out = Resp.text block /\
        Out.usage out = Some u /\
        Out.totalTokens u
        = to_double (Out.promptTokens u + Out.completionTokens u) /\
        (Z.abs (Out.promptTokens u + Out.completionTokens u) <= 2 ^ 53 ->
         Out.totalTokens u
         = Finite (QArith_base.inject_Z
                     (Out.promptTokens u + Out.completionTokens u))) /\
        (Out.promptTokens u + Out.completionTokens u = 2 ^ 53 + 1 ->
         Out.totalTokens u = Finite (QArith_base.inject_Z (2 ^ 53))) /\
        (2 ^ 1024 <= Out.promptTokens u + Out.completionTokens u ->
         Out.totalTokens u = PlusInfinity) /\
        (Resp.usage response = None ->
         Out.promptTokens u = 0 /\ Out.completionTokens u = 0) /\
        (Out.functionCall out = None <-> Resp.tool_calls response = None)).
Proof.
  unfold to_service_response, try_create. split.
  - intros [Hc|Ht].
    + rewrite Hc. eexists. split; [reflexivity|]. repeat split.
      intros create n request ->. cbv zeta. unfold to_service_response.
      now rewrite Hc.
    + destruct (Resp.content response) as [|block rest] eqn:Hc.
      * eexists. split; [reflexivity|]. repeat split.
        intros create n request ->. unfold to_service_response.
        now rewrite Hc.
      * rewrite Ht. eexists. split; [reflexivity|]. repeat split.
        intros create n request ->. unfold to_service_response.
        now rewrite Hc, Ht.
  - intros out.
    destruct (Resp.content response) as [|block rest]; [discriminate|].
    cbv zeta.
    destruct (Resp.tool_calls response) as [[|call calls]|];
      [discriminate| |]; intros [= <-]; exists block, rest;
      eexists; cbn [Out.content Out.usage Out.functionCall];
      (split; [reflexivity|]); (split; [reflexivity|]);
      (split; [reflexivity|]);
      cbn [Out.totalTokens Out.promptTokens Out.completionTokens];
      (split; [reflexivity|]);
      (split; [apply to_double_exact|]);
      (split; [now intros ->|]);
      (split; [apply to_double_overflow|]);
      (split; [now intros ->|]); split; intros H; discriminate || reflexivity.
Qed.

Lemma truthy_not_empty (value : option string) :
  truthy value <> Some EmptyString.
Proof. destruct value as [[|c s]|]; discriminate. Qed.

Lemma truthy_idempotent (value : option string) :
  truthy (truthy value) = truthy value.
Proof. now destruct value as [[|c s]|]. Qed.

Lemma format_message_idempotent (msg : ChatMessage) :
  format_message (format_message msg) = format_message msg.
Proof.
  unfold format_message. cbn. now rewrite truthy_idempotent.
Qed.

(** X10.  [chat] and [createChatCompletionWithFunctions] send one and the
    same request at every attempt.  Its messages are the given ones in
    their order, each with its role and content; a name that is a
    non-empty text is kept, and a message whose name is empty or absent
    is sent without a name.  They are preceded by one system message
    exactly when the system prompt is a non-empty text.  [chat] sends no
    tools; the other method sends the functions as tools, also when the
    list is empty. *)
Theorem chat_request_shape
        (create : nat -> Req.t -> Settled Resp.t) (this : AIService)
        (messages : list ChatMessage)
        (functions : list FunctionDefinition)
        (systemPrompt : option string) (net : Net) :
  let sent := with_system systemPrompt (map format_message messages) in
  (exists r net' n,
      chat create this messages systemPrompt net = Some (r, net') /\
      requests net' =
        (requests net ++ repeat (completion_request this sent None) n)%list)
  /\
  (exists r net' n,
      createChatCompletionWithFunctions create this messages functions
                                        systemPrompt net
      = Some (r, net') /\
      requests net' =
        (requests net
         ++ repeat (completion_request this sent (Some functions)) n)%list)
  /\
  Req.tools (completion_request this sent None) = None /\
  Req.tools (completion_request this sent (Some functions))
  = Some functions /\
  (exists prefix,
      sent = (prefix ++ map format_message messages)%list /\
      match systemPrompt with
      | Some (String c s) =>
          prefix = [{| Msg.role := system; Msg.content := String c s;
                       Msg.name := None |}]
      | _ => prefix = []
      end) /\
  map Msg.role (map format_message messages) = map Msg.role messages /\
  map Msg.content (map format_message messages)
  = map Msg.content messages /\
  Forall (fun m => Msg.name m <> Some EmptyString) sent /\
  map format_message (map format_message messages)
  = map format_message messages /\
  Forall2 (fun given formatted =>
             match Msg.name given with
             | Some (String c s) => Msg.name formatted = Some (String c s)
             | Some EmptyString => Msg.name formatted = None
             | None => Msg.name formatted = None
             end)
          messages (map format_message messages).
Proof.
  cbv zeta. split; [|split].
  - unfold chat.
    destruct (createChatCompletion_spec create this
                (with_system systemPrompt (map format_message messages))
                None net) as [r [net' [n [H [Hreq _]]]]].
    now exists r, net', n.
  - unfold createChatCompletionWithFunctions.
    destruct (createChatCompletion_spec create this
                (with_system systemPrompt (map format_message messages))
                (Some functions) net) as [r [net' [n [H [Hreq _]]]]].
    now exists r, net', n.
  - split; [reflexivity|]. split; [reflexivity|]. split.
    { unfold with_system.
      destruct systemPrompt as [[|c s]|]; cbn [truthy];
        [exists []|eexists [_]|exists []]; split; reflexivity. }
    split; [rewrite map_map; now apply map_ext|].
    split; [rewrite map_map; now apply map_ext|].
    split.
    { unfold with_system.
      assert (Hf : Forall (fun m => Msg.name m <> Some EmptyString)
                          (map format_message messages)).
      { apply Forall_map, Forall_forall. intros m _.
        apply truthy_not_empty. }
      destruct (truthy systemPrompt); [constructor|]; try exact Hf.
      discriminate. }
    split; [rewrite map_map; apply map_ext, format_message_idempotent|].
    induction messages as [|m rest IH]; cbn [map]; constructor;
      [|exact IH].
    unfold format_message. cbn [Msg.name].
    now destruct (Msg.name m) as [[|c s]|].
Qed.

(** X11.  Every request [sendMessage] sends ends with the user message
    that carries the given text; it is the only message unless the system
    prompt is a non-empty text, which then comes first.  No tools are
    sent. *)
Theorem sendMessage_request_shape
        (create : nat -> Req.t -> Settled Resp.t) (this : AIService)
        (message : string) (systemPrompt : option string) (net : Net) :
  exists r net' n request,
    sendMessage create this message systemPrompt net = Some (r, net') /\
    requests net' = (requests net ++ repeat request n)%list /\
    Req.model request = model this /\
    Req.tools request = None /\
    last (Req.messages request)
         {| Msg.role := system; Msg.content := EmptyString;
            Msg.name := None |}
    = {| Msg.role := user; Msg.content := message; Msg.name := None |} /\
    match systemPrompt with
    | Some (String c s) =>
        Req.messages request =
        [{| Msg.role := system; Msg.content := String c s;
            Msg.name := None |};
         {| Msg.role := user; Msg.content := message; Msg.name := None |}]
    | _ =>
        Req.messages request =
        [{| Msg.role := user; Msg.content := message; Msg.name := None |}]
    end.
Proof.
  unfold sendMessage. cbv zeta.
  match goal with
  | |- context [createChatCompletion create this ?ms None net] =>
      destruct (createChatCompletion_spec create this ms None net)
        as [r [net' [n [H [Hreq _]]]]];
      exists r, net', n, (completion_request this ms None)
  end.
  split; [exact H|]. split; [exact Hreq|].
  split; [reflexivity|]. split; [reflexivity|].
  destruct systemPrompt as [[|c s]|]; cbn; split; reflexivity.
Qed.

Section Streaming.

Variable create_stream : nat -> Req.t -> Settled Stream.

Lemma join_app (a b : list string) : join (a ++ b) = join a ++ join b.
Proof.
  unfold join. induction a as [|x a IH]; cbn [app fold_right];
    [reflexivity|].
  now rewrite IH, TextFacts.append_assoc.
Qed.

(** The loop over the chunks sends nothing and asks for no delay; the
    tokens it hands over are the first tokens of the stream, and the text
    it ends with is the text it started with and then all the tokens. *)
Lemma consume_spec (onToken : option (string -> Settled unit))
      (rest : list Chunk.t) :
  forall (fullContent : string) (net : Net),
    let r := consume onToken rest fullContent net in
    requests (snd r) = requests net /\
    delays (snd r) = delays net /\
    (exists seen later,
        tokens (snd r) = (tokens net ++ seen)%list /\
        map token_of rest = (seen ++ later)%list /\
        (onToken = None -> seen = []) /\
        (forall callback full,
            onToken = Some callback -> fst r = Fulfilled full ->
            later = [])) /\
    (forall full, fst r = Fulfilled full ->
                  full = fullContent ++ join (map token_of rest)).
Proof.
  induction rest as [|chunk rest IH]; intros fullContent net; cbv zeta.
  - cbn [consume fst snd map]. repeat split.
    + exists [], []. rewrite app_nil_r. repeat split.
    + intros full [= <-]. cbn. now rewrite TextFacts.append_empty_r.
  - cbn [consume map].
    destruct (read_token chunk) as [token|error] eqn:Hread.
    2:{ cbn [fst snd]. repeat split; try discriminate.
        exists [], (token_of chunk :: map token_of rest)%list.
        rewrite app_nil_r. repeat split; discriminate. }
    assert (Htoken : token_of chunk = token)
      by (unfold token_of; now rewrite Hread).
    rewrite <- Htoken. clear Hread Htoken token.
    destruct onToken as [callback|].
    + destruct (callback (token_of chunk)) as [[]|error].
      * specialize (IH (fullContent ++ token_of chunk)
                       (hand_over (token_of chunk) net)).
        cbv zeta in IH.
        destruct IH as [Hreq [Hdel [[seen [later [Htok [Hmap [_ Hall]]]]]
                                     Hfull]]].
        split; [exact Hreq|]. split; [exact Hdel|]. split.
        -- exists (token_of chunk :: seen)%list, later.
           cbn [hand_over tokens] in Htok.
           rewrite Htok, <- app_assoc, Hmap.
           repeat split; try discriminate.
           intros cb full [= <-] Hf. now apply (Hall callback full).
        -- intros full Hf. rewrite (Hfull full Hf).
           cbn [join fold_right]. now rewrite TextFacts.append_assoc.
      * cbn [fst snd hand_over requests delays tokens].
        repeat split; try discriminate.
        exists [token_of chunk], (map token_of rest).
        repeat split; discriminate.
    + specialize (IH (fullContent ++ token_of chunk) net).
      cbv zeta in IH.
      destruct IH as [Hreq [Hdel [[seen [later [Htok [Hmap [Hnone _]]]]]
                                   Hfull]]].
      split; [exact Hreq|]. split; [exact Hdel|]. split.
      -- exists [], (map token_of (chunk :: rest)).
         rewrite (Hnone eq_refl) in Htok.
         repeat split; try discriminate. exact Htok.
      -- intros full Hf. rewrite (Hfull full Hf).
         cbn [join fold_right]. now rewrite TextFacts.append_assoc.
Qed.

End Streaming.

Lemma read_token_content (chunk : Chunk.t) :
  Chunk.content chunk <> None ->
  read_token chunk = Fulfilled (token_of chunk).
Proof.
  unfold token_of, read_token.
  destruct (Chunk.content chunk) as [[|block blocks]|]; congruence.
Qed.

(** With a callback that never throws, the loop over the chunks ends
    well when every chunk has a content, and with the [TypeError] of
    reading [content[0]] when one has none. *)
Lemma consume_content (onToken : option (string -> Settled unit))
      (rest : list Chunk.t) :
  (forall callback token, onToken = Some callback ->
                          callback token = Fulfilled tt) ->
  forall (fullContent : string) (net : Net),
    (Forall (fun chunk => Chunk.content chunk <> None) rest ->
     exists full net',
       consume onToken rest fullContent net = (Fulfilled full, net')) /\
    (Exists (fun chunk => Chunk.content chunk = None) rest ->
     exists net',
       consume onToken rest fullContent net
       = (Rejected (TypeError_reading "0"), net')).
Proof.
  intros Hcb.
  induction rest as [|chunk rest IH]; intros fullContent net; split.
  - intros _. cbn [consume]. now eexists _, _.
  - intros H. inversion H.
  - intros H. inversion H as [|? ? Hc Hrest]; subst. cbn [consume].
    rewrite (read_token_content chunk Hc).
    destruct onToken as [callback|].
    + rewrite (Hcb callback (token_of chunk) eq_refl).
      now apply IH.
    + now apply IH.
  - intros H. cbn [consume].
    destruct (Chunk.content chunk) as [blocks|] eqn:Hc.
    + rewrite (read_token_content chunk) by congruence.
      assert (Hrest : Exists (fun chunk => Chunk.content chunk = None) rest).
      { inversion H as [? ? Hhere|? ? Hlater]; subst;
          [congruence|exact Hlater]. }
      destruct onToken as [callback|].
      * rewrite (Hcb callback (token_of chunk) eq_refl).
        now apply IH.
      * now apply IH.
    + unfold read_token. rewrite Hc. now eexists.
Qed.

(** X12.  The stream opens and the callback (if any) never throws.  When
    every chunk has a [content] and the stream ends without failing,
    [streamChatCompletion] returns the tokens of the chunks joined in
    their order, a chunk with no first block or no text counting as the
    empty token; the callback has received every token in that order, the
    empty ones too; one request was sent, with [stream: true], and no
    delay was asked for; the response carries neither usage nor function
    call.  When a chunk has no [content], reading its token throws: the
    method throws an [AIError] with the [TypeError]'s message and status
    500, after one request and no delay. *)
Theorem stream_returns_joined_tokens
        (create_stream : nat -> Req.t -> Settled Stream)
        (this : AIService) (messages : list ChatMessage)
        (systemPrompt : option string)
        (onToken : option (string -> Settled unit)) (net : Net)
        (stream : Stream) :
  create_stream
    (length (requests net))
    (stream_request this
       (with_system systemPrompt (map format_message messages)))
  = Fulfilled stream ->
  (forall callback token, onToken = Some callback ->
                          callback token = Fulfilled tt) ->
  let r := streamChatCompletion create_stream this messages systemPrompt
                                onToken net in
  (Forall (fun chunk => Chunk.content chunk <> None) (chunks stream) ->
   failure stream = None ->
   fst r = Returned {| Out.content := join (map token_of (chunks stream));
                       Out.usage := None;
                       Out.functionCall := None |} /\
   requests (snd r) =
     (requests net
      ++ [stream_request this
            (with_system systemPrompt
                         (map format_message messages))])%list /\
   Req.stream
     (stream_request this
        (with_system systemPrompt (map format_message messages))) = true /\
   delays (snd r) = delays net /\
   tokens (snd r) =
     (tokens net
      ++ match onToken with
         | Some _ => map token_of (chunks stream)
         | None => []
         end)%list) /\
  (Exists (fun chunk => Chunk.content chunk = None) (chunks stream) ->
   fst r = Raised {| message :=
                       "Cannot read properties of undefined (reading '0')";
                     statusCode := Some 500;
                     code := None |} /\
   requests (snd r) =
     (requests net
      ++ [stream_request this
            (with_system systemPrompt
                         (map format_message messages))])%list /\
   delays (snd r) = delays net).
Proof.
  intros Hopen Hcb. cbv zeta. unfold streamChatCompletion. cbv zeta.
  rewrite Hopen.
  set (request := stream_request this
                    (with_system systemPrompt (map format_message messages))).
  pose proof (consume_spec onToken (chunks stream) EmptyString
                (send request net)) as Hspec.
  cbv zeta in Hspec.
  destruct (consume_content onToken (chunks stream) Hcb EmptyString
              (send request net)) as [Hgood Hbad].
  split.
  - intros Hall Hend. destruct (Hgood Hall) as [full [net' Hrun]].
    rewrite Hrun in *. cbn [fst snd] in Hspec.
    destruct Hspec as [Hreq [Hdel [[seen [later [Htok [Hmap [Hnone Hlater]]]]]
                                    Hfull]]].
    rewrite Hend. cbn [fst snd].
    rewrite (Hfull full eq_refl). cbn [String.append].
    split; [reflexivity|]. split; [exact Hreq|]. split; [reflexivity|].
    split; [exact Hdel|]. rewrite Htok. cbn [send tokens]. f_equal.
    destruct onToken as [callback|].
    + rewrite (Hlater callback full eq_refl eq_refl), app_nil_r in Hmap.
      now rewrite Hmap.
    + now apply Hnone.
  - intros Hsome. destruct (Hbad Hsome) as [net' Hrun].
    rewrite Hrun in *. cbn [fst snd] in Hspec.
    destruct Hspec as [Hreq [Hdel _]]. cbn [fst snd].
    split; [reflexivity|]. split; [exact Hreq|exact Hdel].
Qed.

(** X13.  Whatever the client and the callback do, [streamChatCompletion]
    sends exactly one request and asks for no delay: a failed stream is
    not retried.  The tokens handed to the callback are the first tokens
    of the stream, in order, and they stay handed over when the stream or
    the callback fails afterwards.  A response is returned only when the
    stream opened and ended without failing, and it then carries all the
    tokens joined. *)
Theorem stream_is_never_retried
        (create_stream : nat -> Req.t -> Settled Stream)
        (this : AIService) (messages : list ChatMessage)
        (systemPrompt : option string)
        (onToken : option (string -> Settled unit)) (net : Net) :
  let request :=
    stream_request this
      (with_system systemPrompt (map format_message messages)) in
  let r := streamChatCompletion create_stream this messages systemPrompt
                                onToken net in
  requests (snd r) = (requests net ++ [request])%list /\
  delays (snd r) = delays net /\
  (exists seen,
      tokens (snd r) = (tokens net ++ seen)%list /\
      (forall error,
          create_stream (length (requests net)) request = Rejected error ->
          seen = [] /\
          fst r = Raised (rethrow "Failed to stream chat completion" error))
      /\
      (forall stream,
          create_stream (length (requests net)) request = Fulfilled stream ->
          exists later,
            map token_of (chunks stream) = (seen ++ later)%list)) /\
  (forall out,
      fst r = Returned out ->
      exists stream,
        create_stream (length (requests net)) request = Fulfilled stream /\
        failure stream = None /\
        Out.content out = join (map token_of (chunks stream))).
Proof.
  cbv zeta. unfold streamChatCompletion. cbv zeta.
  set (request := stream_request this
                    (with_system systemPrompt (map format_message messages))).
  destruct (create_stream (length (requests net)) request)
    as [stream|error] eqn:Hopen.
  - pose proof (consume_spec onToken (chunks stream) EmptyString
                  (send request net)) as Hspec.
    cbv zeta in Hspec.
    destruct (consume onToken (chunks stream) EmptyString
                      (send request net)) as [[full|error] net'] eqn:Hrun;
      cbn [fst snd] in Hspec;
      destruct Hspec as [Hreq [Hdel [[seen [later [Htok [Hmap _]]]] Hfull]]].
    + destruct (failure stream) as [error|] eqn:Hend; cbn [fst snd];
        (split; [exact Hreq|]); (split; [exact Hdel|]); split.
      * exists seen. split; [exact Htok|]. split; [discriminate|].
        intros s [= <-]. now exists later.
      * discriminate.
      * exists seen. split; [exact Htok|]. split; [discriminate|].
        intros s [= <-]. now exists later.
      * intros out [= <-]. exists stream.
        split; [reflexivity|]. split; [exact Hend|].
        cbn [Out.content]. now rewrite (Hfull full eq_refl).
    + cbn [fst snd]. split; [exact Hreq|]. split; [exact Hdel|]. split.
      * exists seen. split; [exact Htok|]. split; [discriminate|].
        intros s [= <-]. now exists later.
      * discriminate.
  - cbn [fst snd send requests delays tokens].
    split; [reflexivity|]. split; [reflexivity|]. split.
    + exists []. rewrite app_nil_r. split; [reflexivity|].
      split; [|discriminate]. now intros e [= <-].
    + discriminate.
Qed.

End AIFacts.



(** X7, an instance: a retry count of 2.5 and a client that fails. *)
Lemma retry_fraction_example :
  AI.attempt_loop_any (AI.flaky 9)
                      (Z.to_nat (Qround.Qceiling (QArith_base.Qmake 5 2)))
                      (AI.Finite (QArith_base.Qmake 5 2))
                      (AI.completion_request AI.sample_service AI.hi None)
                      0 AI.idle_net
  = Some (AI.Raised AI.max_retries_exceeded,
          {| AI.requests :=
               repeat (AI.completion_request AI.sample_service AI.hi None) 3;
             AI.delays := [2000; 4000; 8000];
             AI.tokens := [] |}).
Proof.
  assert (Hpos : QArith_base.Qlt (QArith_base.inject_Z 0)
                                 (QArith_base.Qmake 5 2)) by reflexivity.
  assert (Hmax : QArith_base.Qle (QArith_base.Qmake 5 2)
                                 (QArith_base.inject_Z 1000))
    by (unfold QArith_base.Qle; cbn; lia).
  destruct (proj1 (proj2 (AIFacts.retry_loop_for_any_count
                            (AI.flaky 9)
                            (AI.completion_request AI.sample_service AI.hi
                                                   None)
                            AI.idle_net))
                  (QArith_base.Qmake 5 2) Hpos Hmax)
    as [r [net' [n [d [Hrun [Hreq [_ [_ [Hdel [Htok [_ [_ Hlast]]]]]]]]]]]].
  destruct Hlast as [Hn [Hd Hr]].
  - intros z. unfold QArith_base.Qeq. cbn. lia.
  - intros i Hi. exists AI.overloaded.
    change (Z.to_nat (Qround.Qceiling (QArith_base.Qmake 5 2)))
      with 3%nat in Hi.
    destruct i as [|[|[|i]]]; [reflexivity|reflexivity|reflexivity|lia].
  - rewrite Hrun.
    change (Qround.Qceiling (QArith_base.Qmake 5 2)) with 3 in Hn.
    assert (n = 3%nat) as -> by lia. subst d r.
    destruct net'. cbn in Hreq, Hdel, Htok. now subst.
Defined.

(** X8, an instance: a configuration whose settings all count as
    false. *)
Lemma constructor_example :
  AI.new_AIService (fun _ => AI.Fulfilled tt) AI.falsy_config
  = AI.Returned AI.default_settings /\
  AI.Any.maxRetries AI.default_settings
  = AI.Finite (QArith_base.Qmake 3 1).
Proof.
  split; [reflexivity|].
  refine (proj1 (proj2 (proj2 (proj2 (proj2 (proj2 (proj2 (proj2
            (AIFacts.constructor_replaces_falsy_settings
               (fun _ => AI.Fulfilled tt) AI.falsy_config
               AI.default_settings eq_refl))))))))
                (or_intror (ex_intro _ AI.NaN (conj eq_refl eq_refl)))).
Defined.

(** X10, an instance: a name, an empty name and no name. *)
Lemma chat_names_example :
  map AI.format_message AI.named_messages
  = [{| AI.Msg.role := AI.user; AI.Msg.content := "Hi";
        AI.Msg.name := Some "bob" |};
     {| AI.Msg.role := AI.assistant; AI.Msg.content := "Hello";
        AI.Msg.name := None |};
     {| AI.Msg.role := AI.user; AI.Msg.content := "Bye";
        AI.Msg.name := None |}] /\
  Forall2 (fun given formatted =>
             match AI.Msg.name given with
             | Some (String c s) =>
                 AI.Msg.name formatted = Some (String c s)
             | Some EmptyString => AI.Msg.name formatted = None
             | None => AI.Msg.name formatted = None
             end)
          AI.named_messages (map AI.format_message AI.named_messages).
Proof.
  pose proof (AIFacts.chat_request_shape (AI.flaky 0) AI.sample_service
                AI.named_messages [] None AI.idle_net) as H.
  cbv zeta in H.
  destruct H as [_ [_ [_ [_ [_ [_ [_ [_ [_ H]]]]]]]]].
  split; [reflexivity|exact H].
Defined.

(** X12, an instance: two chunks and one whose content is empty. *)
Lemma stream_example :
  fst (AI.streamChatCompletion (AI.always AI.two_words) AI.sample_service
         AI.hi None (Some AI.quiet_callback) AI.idle_net)
  = AI.Returned {| AI.Out.content := "Hello";
                   AI.Out.usage := None;
                   AI.Out.functionCall := None |} /\
  AI.tokens
    (snd (AI.streamChatCompletion (AI.always AI.two_words) AI.sample_service
            AI.hi None (Some AI.quiet_callback) AI.idle_net))
  = ["Hel"; "lo"; EmptyString].
Proof.
  pose proof (AIFacts.stream_returns_joined_tokens (AI.always AI.two_words)
                AI.sample_service AI.hi None (Some AI.quiet_callback)
                AI.idle_net AI.two_words eq_refl) as H.
  cbv zeta in H.
  destruct H as [H _].
  - intros callback token [= <-]. reflexivity.
  - destruct H as [H1 [_ [_ [_ H2]]]].
    + repeat constructor; discriminate.
    + reflexivity.
    + split; [exact H1|exact H2].
Defined.
